(** * Resumable capture pipeline: content-type dispatch, persisted index,
    failure ledger, page capture under a deadline, graceful shutdown.

    Shallow embedding of [takeScreenshots] with its helpers
    ([loadExistingData], [checkContentType], [checkFilesExist],
    [updateIndexFiles], [recordFailure], [processDocument]).

    Everything the script obtains from the outside (network replies, file
    system results, the browser, the clock, the order in which promises
    settle) is an explicit input of the model; the script's own control flow
    is written out as it stands in the source. *)

From stdpp Require Import base gmap list strings pretty.
From Stdlib Require Import Ascii String NArith ZArith.

Local Open Scope string_scope.
Local Open Scope list_scope.

(** ** Strings *)

(** [s.includes(sub)] *)
Fixpoint includes (s sub : string) : bool :=
  String.prefix sub s ||
  match s with
  | EmptyString => false
  | String _ rest => includes rest sub
  end.

Definition lowerChar (c : ascii) : ascii :=
  let n := N_of_ascii c in
  if ((65 <=? n) && (n <=? 90))%N then ascii_of_N (n + 32) else c.

(** [s.toLowerCase()], on the ASCII range a header value lives in *)
Fixpoint toLowerCase (s : string) : string :=
  match s with
  | EmptyString => EmptyString
  | String c rest => String (lowerChar c) (toLowerCase rest)
  end.

(** [path.join(dir, file)] for the directory constants of the script: the
    leading [./] is normalised away, the segments are joined by [/]. *)
Definition path_join (dir file : string) : string :=
  match dir with
  | String "."%char (String "/"%char rest) => rest +:+ "/" +:+ file
  | _ => dir +:+ "/" +:+ file
  end.

(** [path.basename(p)]: what follows the last [/] *)
Fixpoint path_basename (p : string) : string :=
  match p with
  | EmptyString => EmptyString
  | String c rest =>
      if includes rest "/" then path_basename rest
      else if Ascii.eqb c "/"%char then rest else p
  end.

(** ** Data model *)

(** Value stored under a URL in the index: the object literal built for a
    page (three file names) or the one returned by [processDocument]. *)
Inductive ArtifactSet : Type :=
| PageArtifacts (screenshot html text : string)
| DocumentArtifacts (document text : string).

(** Entry pushed on [failedUrls] by [recordFailure]. *)
Record FailureRecord : Type := mkFailure {
  url : string;
  error : string;
  timestamp : string
}.

#[global] Instance ArtifactSet_eq_dec : EqDecision ArtifactSet.
Proof. solve_decision. Defined.

#[global] Instance FailureRecord_eq_dec : EqDecision FailureRecord.
Proof. solve_decision. Defined.

(** Settled promise: resolved with a value or rejected with an [Error]
    carrying a message. *)
Inductive Result (A : Type) : Type :=
| Resolved (a : A)
| Rejected (message : string).
Arguments Resolved {A} a.
Arguments Rejected {A} message.

(** Outcome of one [fs.writeFile]: on an error the file is either left as it
    was or left truncated (opened, not written in full). *)
Inductive WriteResult : Type :=
| Written
| WriteError (message : string) (truncated : bool).

(** What a JSON file of the script holds on disk. *)
Inductive FileContent (A : Type) : Type :=
| Missing
| Stored (a : A)
| Unreadable.
Arguments Missing {A}.
Arguments Stored {A} a.
Arguments Unreadable {A}.

Definition writeJson {A : Type} (r : WriteResult) (v : A) (f : FileContent A)
  : FileContent A :=
  match r with
  | Written => Stored v
  | WriteError _ true => Unreadable
  | WriteError _ false => f
  end.

Definition writeArtifact (r : WriteResult) (path : string) (fs : gset string)
  : gset string :=
  match r with
  | Written | WriteError _ true => {[path]} ∪ fs
  | WriteError _ false => fs
  end.

Definition writeError (r : WriteResult) : option string :=
  match r with
  | Written => None
  | WriteError m _ => Some m
  end.

(** ** External calls, in the order the script issues them *)

Inductive Call : Type :=
| FetchHead (url : string)          (* fetch(url, { method: 'HEAD' }) *)
| FetchBody (url : string)          (* fetch(url) *)
| WriteFile (path : string)         (* fs.writeFile(path, ...) *)
| PdfParse                          (* pdf(buffer) *)
| MammothExtract                    (* mammoth.extractRawText({ buffer }) *)
| NewPage                           (* context.newPage() *)
| PageGoto (url : string)           (* page.goto(url, ...) *)
| PageScreenshot (path : string)    (* page.screenshot({ path, fullPage }) *)
| PageContent                       (* page.content() *)
| PageEvaluate                      (* page.evaluate(...) *)
| PageClose                         (* page.close() *)
| ContextClose                      (* context.close() *)
| ProcessExit (code : Z).           (* process.exit(code) *)

#[global] Instance Call_eq_dec : EqDecision Call.
Proof. solve_decision. Defined.

(** The awaited steps of the capture that races the 5000 ms timer, in source
    order; the closing [updateIndexFiles] is handled apart because it cannot
    reject. *)
Inductive CaptureStep : Type :=
| Goto | Screenshot | Content | WriteHtml | Evaluate | WriteText.

(** How [Promise.race] between the capture and the timer settles. *)
Inductive RaceOutcome : Type :=
| Captured                                        (* capture resolved first *)
| CaptureError (step : CaptureStep) (message : string)  (* a step rejected first *)
| TimerFirst (pending : CaptureStep)              (* timer fired during a step *)
| TimerDuringFlush.                               (* timer fired during the capture's flush *)

(** Data handed to the two [fs.writeFile] calls of one [updateIndexFiles]:
    [JSON.stringify] runs when the call is made. *)
Definition Snapshot : Type := gmap string ArtifactSet * list FailureRecord.

(** ** State of the process and of the disk *)

Record State : Type := mkState {
  urlMap : gmap string ArtifactSet;          (* in-memory index *)
  failedUrls : list FailureRecord;           (* module-level ledger array *)
  indexFile : FileContent (gmap string ArtifactSet);   (* out/index.json *)
  failedFile : FileContent (list FailureRecord);       (* out/failed_urls.json *)
  files : gset string;                       (* artifact files that exist *)
  pendingFlushes : list Snapshot;            (* flushes started, awaited by nobody *)
  abandoned : list (string * CaptureStep);   (* captures that lost the race, still running *)
  openPages : nat;                           (* pages opened and not closed *)
  calls : list Call                          (* external calls so far *)
}.

Definition call (c : Call) (st : State) : State :=
  mkState (urlMap st) (failedUrls st) (indexFile st) (failedFile st) (files st)
          (pendingFlushes st) (abandoned st) (openPages st) (calls st ++ [c]).

(** [urlMap[url] = value] *)
Definition setUrlMap (url : string) (value : ArtifactSet) (st : State) : State :=
  mkState (<[url := value]> (urlMap st)) (failedUrls st) (indexFile st) (failedFile st)
          (files st) (pendingFlushes st) (abandoned st) (openPages st) (calls st).

(** [failedUrls.push(record)] *)
Definition pushFailure (record : FailureRecord) (st : State) : State :=
  mkState (urlMap st) (failedUrls st ++ [record]) (indexFile st) (failedFile st)
          (files st) (pendingFlushes st) (abandoned st) (openPages st) (calls st).

Definition storeJson (r : WriteResult * WriteResult) (snap : Snapshot) (st : State) : State :=
  mkState (urlMap st) (failedUrls st)
          (writeJson (fst r) (fst snap) (indexFile st))
          (writeJson (snd r) (snd snap) (failedFile st))
          (files st) (pendingFlushes st) (abandoned st) (openPages st) (calls st).

Definition storeArtifact (r : WriteResult) (path : string) (st : State) : State :=
  mkState (urlMap st) (failedUrls st) (indexFile st) (failedFile st)
          (writeArtifact r path (files st))
          (pendingFlushes st) (abandoned st) (openPages st) (calls st).

Definition setPending (p : list Snapshot) (st : State) : State :=
  mkState (urlMap st) (failedUrls st) (indexFile st) (failedFile st) (files st)
          p (abandoned st) (openPages st) (calls st).

Definition setAbandoned (a : list (string * CaptureStep)) (st : State) : State :=
  mkState (urlMap st) (failedUrls st) (indexFile st) (failedFile st) (files st)
          (pendingFlushes st) a (openPages st) (calls st).

Definition setOpenPages (n : nat) (st : State) : State :=
  mkState (urlMap st) (failedUrls st) (indexFile st) (failedFile st) (files st)
          (pendingFlushes st) (abandoned st) n (calls st).

(** ** Promises: state passing with rejection *)

Definition Async (A : Type) : Type := State → State * Result A.

Definition resolve {A : Type} (a : A) : Async A := λ st, (st, Resolved a).

Definition reject {A : Type} (message : string) : Async A := λ st, (st, Rejected message).

(** awaiting a promise the outside world settles *)
Definition settle {A : Type} (r : Result A) : Async A := λ st, (st, r).

Definition perform (f : State → State) : Async unit := λ st, (f st, Resolved tt).

Definition bind {A B : Type} (m : Async A) (k : A → Async B) : Async B :=
  λ st, match m st with
        | (st', Resolved a) => k a st'
        | (st', Rejected message) => (st', Rejected message)
        end.

Notation "'await' x <~ m ; k" := (bind m (λ x, k))
  (at level 10, x name, m at level 100, k at level 200).
Notation "'exec' m ; k" := (bind m (λ _, k))
  (at level 10, m at level 100, k at level 200).

(** ** utils *)

Definition indexPath : string := path_join "./out" "index.json".
Definition failedPath : string := path_join "./out" "failed_urls.json".

(** [fileExists(path)] for an artifact file *)
Definition fileExists (path : string) (st : State) : bool :=
  bool_decide (path ∈ files st).

(** What [checkContentType] returns for a given HEAD reply:
    [response.headers.get('content-type')?.toLowerCase() || ''], and [''] from
    the [catch] when the probe throws *)
Definition contentTypeOf (reply : Result (option string)) : string :=
  match reply with
  | Resolved (Some header) => toLowerCase header
  | Resolved None => ""
  | Rejected _ => ""
  end.

(** [checkContentType(url)] *)
Definition checkContentType (reply : Result (option string)) (url : string)
  : Async string :=
  exec perform (call (FetchHead url));
  resolve (contentTypeOf reply).

(** [fs.writeFile(path, data)] for an artifact file, awaited *)
Definition writeFile (r : WriteResult) (path : string) : Async unit :=
  exec perform (call (WriteFile path));
  exec perform (storeArtifact r path);
  match writeError r with
  | Some message => reject message
  | None => resolve tt
  end.

(** [downloadFile(url, filePath)] *)
Definition downloadFile (body : Result string) (w : WriteResult)
    (url filePath : string) : Async string :=
  exec perform (call (FetchBody url));
  await buffer <~ settle body;
  exec writeFile w filePath;
  resolve buffer.

Definition extractTextFromPdf (r : Result string) (buffer : string) : Async string :=
  exec perform (call PdfParse); settle r.

Definition extractTextFromDoc (r : Result string) (buffer : string) : Async string :=
  exec perform (call MammothExtract); settle r.

(** [checkFilesExist(files)] *)
Definition checkFilesExist (paths : list string) : Async bool :=
  λ st, (st, Resolved (forallb (λ p, fileExists p st) paths)).

(** The synchronous head of [updateIndexFiles]: both [fs.writeFile] calls are
    issued with the index and the ledger serialised at that moment. *)
Definition startFlush (st : State) : State * Snapshot :=
  (call (WriteFile failedPath) (call (WriteFile indexPath) st),
   (urlMap st, failedUrls st)).

(** [await updateIndexFiles(urlMap, failedUrls)]: a write error is caught and
    logged inside, so the call always resolves. *)
Definition updateIndexFiles (r : WriteResult * WriteResult) (st : State) : State :=
  let '(st1, snap) := startFlush st in storeJson r snap st1.

(** [updateIndexFiles(urlMap, failedUrls).catch(console.error)] without
    [await]: the writes are under way when the caller goes on. *)
Definition updateIndexFilesDetached (st : State) : State :=
  let '(st1, snap) := startFlush st in
  setPending (pendingFlushes st1 ++ [snap]) st1.

(** [recordFailure(url, error, urlMap)], [now] being
    [new Date().toISOString()] *)
Definition recordFailure (url message now : string) (st : State) : State :=
  updateIndexFilesDetached (pushFailure (mkFailure url message now) st).

(** [urlMap] is a plain object used as a map from URL to artifact object:
    [urlMap[url]] reads the object stored under the key (truthy) or
    [undefined] when the URL is not a key. *)
Definition truthy (value : option ArtifactSet) : bool :=
  match value with
  | Some _ => true
  | None => false
  end.

(** [urls.filter(url => !urlMap[url])] *)
Definition urlsToProcess (urls : list string) (urlMap : gmap string ArtifactSet)
  : list string :=
  List.filter (λ url, negb (truthy (urlMap !! url))) urls.

(** [loadExistingData()]: each file is read in a [try] of its own; a file
    that is absent, or whose read or [JSON.parse] throws, leaves the initial
    [{}] or [[]] in place. *)
Definition loadExistingData (st : State) : gmap string ArtifactSet * list FailureRecord :=
  let existingUrlMap :=
    match indexFile st with
    | Stored m => m
    | Missing => ∅
    | Unreadable => ∅
    end in
  let existingFailures :=
    match failedFile st with
    | Stored l => l
    | Missing => []
    | Unreadable => []
    end in
  (existingUrlMap, existingFailures).

(** ** What the outside world answers while one URL is processed *)

Record World : Type := mkWorld {
  clock : string;                        (* new Date().toISOString() *)
  probe : Result (option string);        (* HEAD reply seen by the loop *)
  reprobe : Result (option string);      (* HEAD reply seen by processDocument *)
  body : Result string;                  (* fetch(url) and arrayBuffer() *)
  docWrite : WriteResult;                (* writing the downloaded document *)
  extraction : Result string;            (* pdf-parse or mammoth *)
  textWrite : WriteResult;               (* writing the extracted text *)
  newPage : Result unit;                 (* context.newPage() *)
  race : RaceOutcome;                    (* Promise.race([capture, timer]) *)
  pageClose : Result unit;               (* page.close() *)
  flush : WriteResult * WriteResult      (* the awaited updateIndexFiles *)
}.

(** Promises nobody awaits settle while the loop is busy elsewhere. *)
Inductive Background : Type :=
| FlushLands (r : WriteResult * WriteResult)       (* oldest detached flush finishes *)
| CaptureFinishes (r : WriteResult * WriteResult)  (* oldest abandoned capture runs to its end *)
| CaptureDies.                                     (* oldest abandoned capture rejects, unheard *)

Definition screenshotsDir : string := "./out/screenshots".
Definition htmlDir : string := "./out/html".
Definition textDir : string := "./out/text".
Definition docDir : string := "./out/doc".

Definition captureSteps : list CaptureStep :=
  [Goto; Screenshot; Content; WriteHtml; Evaluate; WriteText].

Definition stepIndex (s : CaptureStep) : nat :=
  match s with
  | Goto => 0 | Screenshot => 1 | Content => 2
  | WriteHtml => 3 | Evaluate => 4 | WriteText => 5
  end.

Definition stepsBefore (s : CaptureStep) : list CaptureStep :=
  take (stepIndex s) captureSteps.

Definition stepsAfter (s : CaptureStep) : list CaptureStep :=
  drop (S (stepIndex s)) captureSteps.

Definition screenshotPath (fileHash : string) : string :=
  path_join screenshotsDir (fileHash +:+ ".png").
Definition htmlPath (fileHash : string) : string :=
  path_join htmlDir (fileHash +:+ ".html").
Definition textPath (fileHash : string) : string :=
  path_join textDir (fileHash +:+ ".txt").

(** the object literal stored for a page *)
Definition pageArtifacts (fileHash : string) : ArtifactSet :=
  PageArtifacts (fileHash +:+ ".png") (fileHash +:+ ".html") (fileHash +:+ ".txt").

(** the call a capture step makes *)
Definition stepStart (url fileHash : string) (s : CaptureStep) : Call :=
  match s with
  | Goto => PageGoto url
  | Screenshot => PageScreenshot (screenshotPath fileHash)
  | Content => PageContent
  | WriteHtml => WriteFile (htmlPath fileHash)
  | Evaluate => PageEvaluate
  | WriteText => WriteFile (textPath fileHash)
  end.

(** what a capture step leaves behind once it has resolved *)
Definition stepDone (fileHash : string) (s : CaptureStep) (st : State) : State :=
  match s with
  | Screenshot => storeArtifact Written (screenshotPath fileHash) st
  | WriteHtml => storeArtifact Written (htmlPath fileHash) st
  | WriteText => storeArtifact Written (textPath fileHash) st
  | Goto | Content | Evaluate => st
  end.

Definition runSteps (url fileHash : string) (steps : list CaptureStep) (st : State)
  : State :=
  foldl (λ acc s, stepDone fileHash s (call (stepStart url fileHash s) acc)) st steps.

Definition documentExtension (contentType : string) : string :=
  if includes contentType "pdf" then ".pdf"
  else if includes contentType "word" then ".docx"
  else ".bin".

(** [processDocument(url, fileHash, docDir, textDir)] *)
Definition processDocument (w : World) (url fileHash docDir textDir : string)
  : Async ArtifactSet :=
  await contentType <~ checkContentType (reprobe w) url;
  let extension := documentExtension contentType in
  let docPath := path_join docDir (fileHash +:+ extension) in
  let textPath := path_join textDir (fileHash +:+ ".txt") in
  await buffer <~ downloadFile (body w) (docWrite w) url docPath;
  await text <~
    (if includes contentType "pdf" then extractTextFromPdf (extraction w) buffer
     else if includes contentType "word" then extractTextFromDoc (extraction w) buffer
     else reject ("Unsupported document type: " +:+ contentType));
  exec writeFile (textWrite w) textPath;
  resolve (DocumentArtifacts (path_basename docPath) (fileHash +:+ ".txt")).

(** The [Promise.race] of the capture against the 5000 ms timer. The loser
    is not cancelled: a capture that loses stays in [abandoned]. *)
Definition raceCapture (w : World) (url fileHash : string) : Async unit :=
  match race w with
  | Captured =>
      exec perform (runSteps url fileHash captureSteps);
      exec perform (setUrlMap url (pageArtifacts fileHash));
      perform (updateIndexFiles (flush w))
  | CaptureError step message =>
      exec perform (runSteps url fileHash (stepsBefore step));
      exec perform (call (stepStart url fileHash step));
      reject message
  | TimerFirst pending =>
      exec perform (runSteps url fileHash (stepsBefore pending));
      exec perform (call (stepStart url fileHash pending));
      exec perform (λ st, setAbandoned (abandoned st ++ [(url, pending)]) st);
      reject "Timeout"
  | TimerDuringFlush =>
      exec perform (runSteps url fileHash captureSteps);
      exec perform (setUrlMap url (pageArtifacts fileHash));
      exec perform updateIndexFilesDetached;
      reject "Timeout"
  end.

(** Branch of the loop body taken for a document *)
Definition handleDocument (w : World) (url fileHash : string) : Async unit :=
  await artifacts <~ processDocument w url fileHash docDir textDir;
  exec perform (setUrlMap url artifacts);
  perform (updateIndexFiles (flush w)).

(** Branch of the loop body taken for a web page *)
Definition handlePage (w : World) (url fileHash : string) : Async unit :=
  await present <~
    checkFilesExist [screenshotPath fileHash; htmlPath fileHash; textPath fileHash];
  if present then
    exec perform (setUrlMap url (pageArtifacts fileHash));
    perform (updateIndexFiles (flush w))
  else
    exec perform (call NewPage);
    exec settle (newPage w);
    exec perform (λ st, setOpenPages (S (openPages st)) st);
    exec raceCapture w url fileHash;
    exec perform (call PageClose);
    exec settle (pageClose w);
    perform (λ st, setOpenPages (pred (openPages st)) st).

(** The message the [catch] block hands to [recordFailure]: the timer's
    [Timeout] is replaced by a new error, any other error is passed on. *)
Definition reportedMessage (message : string) : string :=
  if String.eqb message "Timeout" then "Processing timeout" else message.

Section Pipeline.

(** [hashUrl]: the hex MD5 digest of the URL (node's [crypto]) *)
Variable hashUrl : string → string.

(** The [try] block of one loop iteration *)
Definition processBody (w : World) (url : string) : Async unit :=
  let fileHash := hashUrl url in
  await contentType <~ checkContentType (probe w) url;
  if includes contentType "pdf" || includes contentType "word" then
    handleDocument w url fileHash
  else if negb (includes contentType "html") then
    perform (recordFailure url ("Unsupported content type: " +:+ contentType) (clock w))
  else
    handlePage w url fileHash.

(** One loop iteration: the [try] block and its [catch] *)
Definition processUrl (w : World) (url : string) (st : State) : State :=
  match processBody w url st with
  | (st', Resolved _) => st'
  | (st', Rejected message) => recordFailure url (reportedMessage message) (clock w) st'
  end.

Definition background (b : Background) (st : State) : State :=
  match b with
  | FlushLands r =>
      match pendingFlushes st with
      | [] => st
      | snap :: rest => storeJson r snap (setPending rest st)
      end
  | CaptureFinishes r =>
      match abandoned st with
      | [] => st
      | (url, pending) :: rest =>
          let fileHash := hashUrl url in
          updateIndexFiles r
            (setUrlMap url (pageArtifacts fileHash)
               (runSteps url fileHash (stepsAfter pending)
                  (stepDone fileHash pending (setAbandoned rest st))))
      end
  | CaptureDies =>
      match abandoned st with
      | [] => st
      | _ :: rest => setAbandoned rest st
      end
  end.

(** The [for (const url of urlsToProcess)] loop of a run no signal
    interrupts; [env n] is what happens around the [n]-th URL. *)
Fixpoint processLoop (env : nat → list Background * World) (processed : nat)
    (urls : list string) (st : State) : nat * State :=
  match urls with
  | [] => (processed, st)
  | url :: rest =>
      let '(bs, w) := env processed in
      processLoop env (S processed) rest
        (processUrl w url (foldl (λ acc b, background b acc) st bs))
  end.

End Pipeline.

(** ** A whole run that no signal interrupts *)

(** Answers to the start-up steps; a rejection there is fatal. *)
Record Setup : Type := mkSetup {
  urlsJson : Result (list string);   (* reading and parsing ./urls.json *)
  directories : Result unit;         (* the four ensureDirectoryExists *)
  launch : Result unit               (* chromium.launchPersistentContext *)
}.

Record Summary : Type := mkSummary {
  workList : list string;            (* urlsToProcess *)
  processed : nat;                   (* the counter of the same name *)
  final : State;
  fatal : option string              (* error that reached the last catch: exit status 1 *)
}.

(** A fresh process: [failedUrls] is [[]], nothing is open, the disk is as
    the previous run left it. *)
Definition boot (index : FileContent (gmap string ArtifactSet))
    (failed : FileContent (list FailureRecord)) (artifacts : gset string) : State :=
  mkState ∅ [] index failed artifacts [] [] 0 [].

(** [const urlMap = { ...existingUrlMap }; failedUrls.push(...existingFailures)] *)
Definition adopt (loaded : gmap string ArtifactSet * list FailureRecord) (st : State)
  : State :=
  mkState (fst loaded) (failedUrls st ++ snd loaded) (indexFile st) (failedFile st)
          (files st) (pendingFlushes st) (abandoned st) (openPages st) (calls st).

(** [await context.close()]: every page of the context goes with it. *)
Definition closeContext (st : State) : State :=
  setOpenPages 0 (call ContextClose st).

Definition abort (message : string) (work : list string) (st : State) : Summary :=
  mkSummary work 0 (call (ProcessExit 1) st) (Some message).

Definition takeScreenshots (hashUrl : string → string) (setup : Setup)
    (env : nat → list Background * World) (st : State) : Summary :=
  let st := adopt (loadExistingData st) st in
  match urlsJson setup with
  | Rejected message => abort message [] st
  | Resolved urls =>
      let work := urlsToProcess urls (urlMap st) in
      match directories setup with
      | Rejected message => abort message work st
      | Resolved _ =>
          match launch setup with
          | Rejected message => abort message work st
          | Resolved _ =>
              let '(n, st) := processLoop hashUrl env 0 work st in
              mkSummary work n (closeContext st) None
          end
      end
  end.

(** ** The run as a process that signals can interrupt *)

(** Progress of [handleShutdown] through its two awaits. *)
Inductive HandlerStage : Type :=
| Idle
| Flushing (snap : Snapshot)     (* awaiting updateIndexFiles *)
| Closing                        (* awaiting context.close() *)
| Exited.                        (* process.exit(0) reached *)

Record Process : Type := mkProcess {
  mem : State;
  remaining : list string;       (* URLs of urlsToProcess not yet reached *)
  inFlight : option string;      (* URL whose iteration is under way *)
  started : nat;                 (* the counter [processed] *)
  isShuttingDown : bool;
  handler : HandlerStage;
  loopDone : bool;               (* the loop was left and finally ran *)
  exitCode : option Z
}.

Inductive Event : Type :=
| LoopHead                                  (* the loop reaches its head *)
| UrlSettles (w : World)                    (* the iteration under way ends *)
| Behind (b : Background)                   (* an un-awaited promise settles *)
| Signal                                    (* SIGINT or SIGTERM is delivered *)
| HandlerFlushed (r : WriteResult * WriteResult)  (* the handler's flush returns *)
| HandlerClosed.                            (* the handler's context.close() returns *)

Definition withMem (f : State → State) (p : Process) : Process :=
  mkProcess (f (mem p)) (remaining p) (inFlight p) (started p) (isShuttingDown p)
            (handler p) (loopDone p) (exitCode p).

(** leaving the loop: [break] or exhaustion, then the [finally] block *)
Definition leaveLoop (p : Process) : Process :=
  mkProcess (closeContext (mem p)) (remaining p) None (started p) (isShuttingDown p)
            (handler p) true (exitCode p).

(** [handleShutdown()] up to its first await *)
Definition handleShutdown (p : Process) : Process :=
  if isShuttingDown p then p
  else
    let '(st, snap) := startFlush (mem p) in
    mkProcess st (remaining p) (inFlight p) (started p) true
              (Flushing snap) (loopDone p) (exitCode p).

Definition step (hashUrl : string → string) (p : Process) (e : Event) : Process :=
  match exitCode p with
  | Some _ => p
  | None =>
      match e with
      | LoopHead =>
          if loopDone p then p
          else match inFlight p, remaining p with
               | Some _, _ => p
               | None, [] => leaveLoop p
               | None, url :: rest =>
                   if isShuttingDown p then leaveLoop p
                   else mkProcess (mem p) rest (Some url) (S (started p))
                                  (isShuttingDown p) (handler p) (loopDone p) (exitCode p)
               end
      | UrlSettles w =>
          match inFlight p with
          | None => p
          | Some url =>
              mkProcess (processUrl hashUrl w url (mem p)) (remaining p) None (started p)
                        (isShuttingDown p) (handler p) (loopDone p) (exitCode p)
          end
      | Behind b => withMem (background hashUrl b) p
      | Signal => handleShutdown p
      | HandlerFlushed r =>
          match handler p with
          | Flushing snap =>
              mkProcess (call ContextClose (storeJson r snap (mem p))) (remaining p)
                        (inFlight p) (started p) (isShuttingDown p) Closing
                        (loopDone p) (exitCode p)
          | _ => p
          end
      | HandlerClosed =>
          match handler p with
          | Closing =>
              mkProcess (call (ProcessExit 0) (setOpenPages 0 (mem p))) (remaining p)
                        (inFlight p) (started p) (isShuttingDown p) Exited
                        (loopDone p) (Some 0%Z)
          | _ => p
          end
      end
  end.

Definition run (hashUrl : string → string) (p : Process) (events : list Event) : Process :=
  foldl (step hashUrl) p events.

(** the process as it stands when the loop is about to start *)
Definition launchProcess (work : list string) (st : State) : Process :=
  mkProcess st work None 0 false Idle false None.

(** The events of a run that no signal interrupts, [env] as in
    [processLoop]: for each URL the loop head, what settles in the
    background, the end of the iteration; then the loop head once more. *)
Fixpoint quietSchedule (env : nat → list Background * World) (n : nat)
    (work : list string) : list Event :=
  match work with
  | [] => [LoopHead]
  | _ :: rest =>
      let '(bs, w) := env n in
      LoopHead :: (Behind <$> bs) ++ UrlSettles w :: quietSchedule env (S n) rest
  end.

(** ** The classifier as the specification words it *)

Inductive Category : Type :=
| PdfDocument | WordDocument | WebPage | Unsupported.

(** Substring matching on the content type: [pdf], then [word], then
    [html], anything else unsupported. *)
Definition classify (contentType : string) : Category :=
  if includes contentType "pdf" then PdfDocument
  else if includes contentType "word" then WordDocument
  else if includes contentType "html" then WebPage
  else Unsupported.

(** the same answers, with other results for the awaited flush *)
Definition withFlush (r : WriteResult * WriteResult) (w : World) : World :=
  mkWorld (clock w) (probe w) (reprobe w) (body w) (docWrite w) (extraction w)
          (textWrite w) (newPage w) (race w) (pageClose w) r.

(** ** Sample inputs *)

(** Stand-in for the digest where an example needs a concrete one. *)
Definition sampleHash (url : string) : string :=
  "fp" +:+ pretty (String.length url).

Definition quietWorld : World :=
  mkWorld "2024-01-01T00:00:00.000Z" (Resolved (Some "text/html; charset=utf-8"))
          (Resolved (Some "text/html; charset=utf-8")) (Resolved "%PDF-1.4")
          Written (Resolved "some text") Written (Resolved tt) Captured
          (Resolved tt) (Written, Written).

Definition quietEnv (n : nat) : list Background * World := ([], quietWorld).

Definition readySetup (urls : list string) : Setup :=
  mkSetup (Resolved urls) (Resolved tt) (Resolved tt).

Definition sampleIndex : gmap string ArtifactSet :=
  {[ "https://example.com/a.pdf" := DocumentArtifacts "fp25.pdf" "fp25.txt" ]}.

(** A PDF whose second probe fails on the network. *)
Definition flakyPdfWorld : World :=
  mkWorld "2024-01-01T00:00:00.000Z" (Resolved (Some "application/pdf"))
          (Rejected "fetch failed") (Resolved "%PDF-1.4")
          Written (Resolved "some text") Written (Resolved tt) Captured
          (Resolved tt) (Written, Written).

(** A page whose content type also names a keyword list. *)
Definition keywordPageWorld : World :=
  mkWorld "2024-01-01T00:00:00.000Z"
          (Resolved (Some "text/html; charset=utf-8; profile=keywords"))
          (Resolved (Some "text/html; charset=utf-8; profile=keywords"))
          (Resolved "<html></html>")
          Written (Resolved "some text") Written (Resolved tt) Captured
          (Resolved tt) (Written, Written).

Definition samplePdfUrl : string := "https://example.com/a.pdf".
Definition samplePageUrl : string := "https://example.com/b".

(** A disk on which the three page files of [samplePageUrl] exist, the
    index not having been updated. *)
Definition capturedDisk : State :=
  boot Missing Missing
    {[ "out/screenshots/fp21.png"; "out/html/fp21.html"; "out/text/fp21.txt" ]}.

(** An image: neither a document nor a page. *)
Definition imageWorld : World :=
  mkWorld "2024-01-01T00:00:00.000Z" (Resolved (Some "image/png"))
          (Resolved (Some "image/png")) (Resolved "PNG")
          Written (Resolved "") Written (Resolved tt) Captured
          (Resolved tt) (Written, Written).

(** A page whose navigation is still pending when the timer fires. *)
Definition slowPageWorld : World :=
  mkWorld "2024-01-01T00:00:05.000Z" (Resolved (Some "text/html"))
          (Resolved (Some "text/html")) (Resolved "<html></html>")
          Written (Resolved "") Written (Resolved tt) (TimerFirst Goto)
          (Resolved tt) (Written, Written).

Definition sampleImageUrl : string := "https://example.com/logo.png".
Definition sampleSlowUrl : string := "https://example.com/slow".

(** ** Text of a page *)

(** White space as [String.prototype.trim] sees it, for code units below
    256: tab, line feed, vertical tab, form feed, carriage return, space,
    no-break space. *)
Definition isWhiteSpace (c : ascii) : bool :=
  let n := N_of_ascii c in
  ((n =? 9) || (n =? 10) || (n =? 11) || (n =? 12) || (n =? 13)
   || (n =? 32) || (n =? 160))%N.

Definition newline : ascii := "010"%char.

Fixpoint trimStart (s : string) : string :=
  match s with
  | EmptyString => EmptyString
  | String c rest => if isWhiteSpace c then trimStart rest else s
  end.

Fixpoint trimEnd (s : string) : string :=
  match s with
  | EmptyString => EmptyString
  | String c rest =>
      match trimEnd rest with
      | EmptyString => if isWhiteSpace c then EmptyString else String c EmptyString
      | kept => String c kept
      end
  end.

(** [line.trim()] *)
Definition trim (s : string) : string := trimEnd (trimStart s).

(** [s.split('\n')]: always at least one piece *)
Fixpoint splitLines (s : string) : list string :=
  match s with
  | EmptyString => [EmptyString]
  | String c rest =>
      if Ascii.eqb c newline then EmptyString :: splitLines rest
      else match splitLines rest with
           | line :: lines => String c line :: lines
           | [] => [String c EmptyString]
           end
  end.

(** [lines.join('\n')] *)
Fixpoint joinLines (lines : list string) : string :=
  match lines with
  | [] => EmptyString
  | [line] => line
  | line :: rest => line +:+ String newline (joinLines rest)
  end.

(** a string used as a condition: only the empty string is falsy *)
Definition nonEmpty (s : string) : bool :=
  match s with
  | EmptyString => false
  | String _ _ => true
  end.

(** What the function handed to [page.evaluate] returns for a given
    [document.body.innerText]:
    [.split('\n').map(line => line.trim()).filter(line => line).join('\n')] *)
Definition extractPageText (innerText : string) : string :=
  joinLines (List.filter nonEmpty (List.map trim (splitLines innerText))).

Definition firstChar (s : string) : option ascii :=
  match s with
  | EmptyString => None
  | String c _ => Some c
  end.

Fixpoint lastChar (s : string) : option ascii :=
  match s with
  | EmptyString => None
  | String c EmptyString => Some c
  | String _ rest => lastChar rest
  end.

(** only white space, or nothing at all *)
Definition blank (s : string) : bool :=
  forallb isWhiteSpace (list_ascii_of_string s).

(** ** Index entries and the files they name *)

(** The files an index entry names exist: the names are joined to the
    directories the script writes them to. *)
Definition artifactsOnDisk (fs : gset string) (entry : ArtifactSet) : Prop :=
  match entry with
  | PageArtifacts screenshot html text =>
      path_join screenshotsDir screenshot ∈ fs
      ∧ path_join htmlDir html ∈ fs
      ∧ path_join textDir text ∈ fs
  | DocumentArtifacts document text =>
      path_join docDir document ∈ fs ∧ path_join textDir text ∈ fs
  end.

Definition indexOnDisk (st : State) : Prop :=
  ∀ url entry, urlMap st !! url = Some entry → artifactsOnDisk (files st) entry.

(** A digest that is the same for every URL, for examples that need the
    digest to be free of [/] whatever the URL. *)
Definition constantHash (url : string) : string := "d41d8cd98f00b204e9800998ecf8427e".

(** the file a capture step writes, if it writes one *)
Definition stepFile (fileHash : string) (s : CaptureStep) : option string :=
  match s with
  | Screenshot => Some (screenshotPath fileHash)
  | WriteHtml => Some (htmlPath fileHash)
  | WriteText => Some (textPath fileHash)
  | Goto | Content | Evaluate => None
  end.

(** Every capture that lost its race has written the files of the steps it
    had finished by then. *)
Definition abandonedOnDisk (hashUrl : string → string) (st : State) : Prop :=
  ∀ url pending s file,
    (url, pending) ∈ abandoned st →
    s ∈ stepsBefore pending →
    stepFile (hashUrl url) s = Some file →
    file ∈ files st.

(** An index with one document entry, and a disk that holds its files. *)
Definition documentIndex : gmap string ArtifactSet :=
  {[ samplePdfUrl := DocumentArtifacts "d41d8cd98f00b204e9800998ecf8427e.pdf"
                                     "d41d8cd98f00b204e9800998ecf8427e.txt" ]}.

Definition documentFiles : gset string :=
  {[ "out/doc/d41d8cd98f00b204e9800998ecf8427e.pdf";
     "out/text/d41d8cd98f00b204e9800998ecf8427e.txt" ]}.

(** the state of a process that has just loaded [documentIndex] *)
Definition resumedState : State :=
  adopt (loadExistingData (boot (Stored documentIndex) Missing documentFiles))
        (boot (Stored documentIndex) Missing documentFiles).

(** [base] is kept as it is, every key is in [keys], and so it will stay
    when the captures that lost their race finish *)
Definition indexWithin (base : gmap string ArtifactSet) (keys : gset string)
    (st : State) : Prop :=
  base ⊆ urlMap st
  ∧ dom (urlMap st) ⊆ keys
  ∧ ∀ u pending, (u, pending) ∈ abandoned st → base !! u = None ∧ u ∈ keys.

(** ** Bookkeeping of the loop and of the handler *)

(** The loop has taken a prefix of the work list, as many URLs as the
    counter says, the last of them being the one in flight if any. *)
Definition orderKept (work : list string) (p : Process) : Prop :=
  ∃ taken,
    work = taken ++ remaining p
    ∧ List.length taken = started p
    ∧ ∀ u, inFlight p = Some u → last taken = Some u.

(** How far [handleShutdown] has got agrees with the flag, the exit code
    and the calls made. *)
Definition handlerKept (p : Process) : Prop :=
  match handler p with
  | Idle => isShuttingDown p = false ∧ exitCode p = None
  | Flushing _ => isShuttingDown p = true ∧ exitCode p = None
  | Closing =>
      isShuttingDown p = true ∧ exitCode p = None ∧ ContextClose ∈ calls (mem p)
  | Exited =>
      isShuttingDown p = true ∧ exitCode p = Some 0%Z
      ∧ ∃ before, calls (mem p) = before ++ [ProcessExit 0] ∧ ContextClose ∈ before
  end.

(** A PDF that both probes name and that downloads and parses. *)
Definition pdfWorld : World :=
  mkWorld "2024-01-01T00:00:00.000Z" (Resolved (Some "application/pdf"))
          (Resolved (Some "application/pdf")) (Resolved "%PDF-1.4")
          Written (Resolved "some text") Written (Resolved tt) Captured
          (Resolved tt) (Written, Written).

(** A PDF that downloads but does not parse. *)
Definition brokenPdfWorld : World :=
  mkWorld "2024-01-01T00:00:00.000Z" (Resolved (Some "application/pdf"))
          (Resolved (Some "application/pdf")) (Resolved "not a pdf")
          Written (Rejected "Invalid PDF structure") Written (Resolved tt) Captured
          (Resolved tt) (Written, Written).

(** A page that is captured in full but whose tab fails to close. *)
Definition stuckTabWorld : World :=
  mkWorld "2024-01-01T00:00:00.000Z" (Resolved (Some "text/html"))
          (Resolved (Some "text/html")) (Resolved "<html></html>")
          Written (Resolved "") Written (Resolved tt) Captured
          (Rejected "Target closed") (Written, Written).

(** A disk that holds the screenshot of [samplePageUrl] and nothing else. *)
Definition partialDisk : State :=
  boot Missing Missing {[ "out/screenshots/fp21.png" ]}.

(** * Properties *)

(** ** Substring test *)

Lemma prefix_split (sub s : string) :
  String.prefix sub s = true ↔ ∃ rest, s = sub +:+ rest.
Proof.
  revert s. induction sub as [|c sub IH]; intros s.
  - split; [intros _; by exists s | intros _; by destruct s].
  - destruct s as [|d s]; simpl.
    + split; [done | by intros [rest [=]]].
    + destruct (Ascii.ascii_dec c d) as [->|Hne].
      * rewrite IH. split; intros [rest H]; exists rest; [by rewrite H | by injection H].
      * split; [done | intros [rest [= ? _]]; done].
Qed.

(** [includes s sub] holds exactly when [sub] occurs somewhere in [s]. *)
Lemma includes_split (s sub : string) :
  includes s sub = true ↔ ∃ before after, s = before +:+ sub +:+ after.
Proof.
  induction s as [|c s IH].
  - change (includes "" sub) with (String.prefix sub "" || false).
    rewrite orb_false_r, prefix_split. split.
    + intros [rest H]. by exists "", rest.
    + intros (before & after & H). destruct before; [by exists after|done].
  - change (includes (String c s) sub)
      with (String.prefix sub (String c s) || includes s sub).
    rewrite orb_true_iff, prefix_split, IH. split.
    + intros [[rest H]|(before & after & H)].
      * by exists "", rest.
      * exists (String c before), after. simpl. by rewrite H.
    + intros (before & after & H). destruct before as [|d before]; simpl in H.
      * left. by exists after.
      * right. injection H as _ H. by exists before, after.
Qed.

(** ** Resume filter *)

Lemma truthy_lookup (index : gmap string ArtifactSet) (url : string) :
  negb (truthy (index !! url)) = true ↔ url ∉ dom index.
Proof.
  rewrite elem_of_dom. destruct (index !! url) as [v|]; simpl.
  - split; [discriminate | intros H; destruct H; eauto].
  - split; [intros _ [v Hv]; discriminate | reflexivity].
Qed.

Lemma urlsToProcess_elem (urls : list string) (index : gmap string ArtifactSet)
    (url : string) :
  url ∈ urlsToProcess urls index ↔ url ∈ urls ∧ url ∉ dom index.
Proof.
  unfold urlsToProcess. rewrite !list_elem_of_In, filter_In.
  by rewrite truthy_lookup.
Qed.


Lemma urlsToProcess_covered (urls : list string) (index : gmap string ArtifactSet) :
  (∀ url, url ∈ urls → url ∈ dom index) → urlsToProcess urls index = [].
Proof.
  intros Hall. unfold urlsToProcess.
  induction urls as [|u urls IH]; simpl; [done|].
  assert (Hu : u ∈ dom index) by (apply Hall; left).
  apply elem_of_dom in Hu as [v Hv]. rewrite Hv. simpl.
  apply IH. intros url Hin. apply Hall. by right.
Qed.



(** ** Whole runs *)

Lemma idle_step hashUrl (p : Process) (e : Event) :
  remaining p = [] → inFlight p = None → abandoned (mem p) = [] →
  let q := step hashUrl p e in
  remaining q = [] ∧ inFlight q = None ∧ abandoned (mem q) = []
  ∧ urlMap (mem q) = urlMap (mem p) ∧ started q = started p.
Proof.
  destruct p as [st rest cur n flag stage over code]. simpl.
  intros -> -> Hab. unfold step. simpl.
  destruct code; [done|].
  destruct e as [|w|b| |r|]; simpl.
  - by destruct over.
  - done.
  - destruct b as [r|r|]; simpl; rewrite ?Hab; try done.
    by destruct (pendingFlushes st).
  - unfold handleShutdown. simpl. by destruct flag.
  - by destruct stage.
  - by destruct stage.
Qed.

Lemma idle_run hashUrl (events : list Event) : ∀ p,
  remaining p = [] → inFlight p = None → abandoned (mem p) = [] →
  let q := run hashUrl p events in
  remaining q = [] ∧ inFlight q = None ∧ abandoned (mem q) = []
  ∧ urlMap (mem q) = urlMap (mem p) ∧ started q = started p.
Proof.
  induction events as [|e events IH]; intros p Hr Hi Ha; cbv zeta; simpl; [done|].
  destruct (idle_step hashUrl p e Hr Hi Ha) as (H1 & H2 & H3 & H4 & H5).
  destruct (IH _ H1 H2 H3) as (G1 & G2 & G3 & G4 & G5).
  repeat split; congruence.
Qed.

(** C8. When every URL of the input list is already a key of the loaded
    index, the run has an empty work list, starts no URL, and ends with the
    in-memory index and the index file exactly as loaded, whatever the
    start-up steps answer; signals and whatever else may happen around the
    loop leave the in-memory index as loaded and start no URL either. *)
Theorem run_idempotent hashUrl (urls : list string)
    (index : gmap string ArtifactSet) failed artifacts dirs browser env :
  (∀ url, url ∈ urls → url ∈ dom index) →
  let s := takeScreenshots hashUrl (mkSetup (Resolved urls) dirs browser) env
             (boot (Stored index) failed artifacts) in
  workList s = [] ∧ processed s = 0 ∧ urlMap (final s) = index
  ∧ indexFile (final s) = Stored index
  ∧ ∀ events,
      let st0 := boot (Stored index) failed artifacts in
      let q := run hashUrl (launchProcess (workList s) (adopt (loadExistingData st0) st0))
                 events in
      urlMap (mem q) = index ∧ started q = 0.
Proof.
  intros Hall. unfold takeScreenshots. simpl.
  rewrite (urlsToProcess_covered urls index Hall).
  assert (Hidle : ∀ events,
    let st0 := boot (Stored index) failed artifacts in
    let q := run hashUrl (launchProcess [] (adopt (loadExistingData st0) st0)) events in
    urlMap (mem q) = index ∧ started q = 0).
  { intros events st0 q.
    destruct (idle_run hashUrl events
      (launchProcess [] (adopt (loadExistingData st0) st0)))
      as (_ & _ & _ & Hm & Hs); done. }
  destruct dirs as [[]|m]; simpl; [|done].
  destruct browser as [[]|m]; simpl; done.
Qed.

Lemma run_idempotent_witness :
  let s := takeScreenshots sampleHash (readySetup ["https://example.com/a.pdf"]) quietEnv
             (boot (Stored sampleIndex) Missing ∅) in
  workList s = [] ∧ processed s = 0 ∧ urlMap (final s) = sampleIndex
  ∧ indexFile (final s) = Stored sampleIndex.
Proof.
  assert (Hall : ∀ url, url ∈ ["https://example.com/a.pdf"] → url ∈ dom sampleIndex).
  { intros url Hin. apply list_elem_of_singleton in Hin as ->.
    unfold sampleIndex. rewrite dom_singleton_L. by apply elem_of_singleton. }
  destruct (run_idempotent sampleHash _ sampleIndex Missing ∅ (Resolved tt)
              (Resolved tt) quietEnv Hall) as (H1 & H2 & H3 & H4 & _).
  repeat split; assumption.
Defined.


(** ** One iteration of the loop *)

Ltac unfold_async :=
  unfold processUrl, processBody, handleDocument, handlePage, raceCapture,
    processDocument, downloadFile, extractTextFromPdf, extractTextFromDoc,
    writeFile, checkFilesExist, checkContentType, bind, perform, resolve,
    reject, settle.

(** closes a decidable goal on concrete data by evaluation *)
Ltac decide_now := apply (bool_decide_unpack _); vm_compute; exact I.

Lemma classify_cases (contentType : string) :
  match classify contentType with
  | PdfDocument => includes contentType "pdf" = true
  | WordDocument =>
      includes contentType "pdf" = false ∧ includes contentType "word" = true
  | WebPage =>
      includes contentType "pdf" = false ∧ includes contentType "word" = false
      ∧ includes contentType "html" = true
  | Unsupported =>
      includes contentType "pdf" = false ∧ includes contentType "word" = false
      ∧ includes contentType "html" = false
  end.
Proof.
  unfold classify.
  destruct (includes contentType "pdf"), (includes contentType "word"),
    (includes contentType "html"); auto.
Qed.

(** C4, as amended. The dispatch probe decides the route in priority order:
    a content type containing [pdf] or [word] goes to the document branch,
    otherwise one containing [html] goes to the page branch, and anything
    else (the empty string of a failed probe included) is recorded at once
    as [Unsupported content type] with no further call than the flush. The
    extension of the saved document comes from the document worker's own
    second probe: [.pdf], else [.docx], else [.bin]. *)
Theorem dispatch_by_content_type hashUrl (w : World) (url : string) (st : State) :
  let contentType := contentTypeOf (probe w) in
  let probed := call (FetchHead url) st in
  match classify contentType with
  | PdfDocument | WordDocument =>
      processBody hashUrl w url st = handleDocument w url (hashUrl url) probed
  | WebPage =>
      processBody hashUrl w url st = handlePage w url (hashUrl url) probed
  | Unsupported =>
      let st' := processUrl hashUrl w url st in
      calls st' = calls st ++ [FetchHead url; WriteFile indexPath; WriteFile failedPath]
      ∧ failedUrls st' = failedUrls st ++
          [mkFailure url ("Unsupported content type: " +:+ contentType) (clock w)]
      ∧ urlMap st' = urlMap st ∧ files st' = files st
      ∧ openPages st' = openPages st
  end
  ∧ (∀ message, classify (contentTypeOf (Rejected message)) = Unsupported)
  ∧ (∀ fileHash docDir textDir now probe1 probe2 buffer dw ex tw np rc pc fl,
       let w' := mkWorld now probe1 probe2 (Resolved buffer) dw ex tw np rc pc fl in
       let extension :=
         match classify (contentTypeOf probe2) with
         | PdfDocument => ".pdf"
         | WordDocument => ".docx"
         | WebPage | Unsupported => ".bin"
         end in
       ∃ rest,
         calls (fst (processDocument w' url fileHash docDir textDir st))
         = calls st ++ [FetchHead url; FetchBody url;
                        WriteFile (path_join docDir (fileHash +:+ extension))] ++ rest).
Proof.
  intros contentType probed. split; [|split].
  - pose proof (classify_cases contentType) as Hc.
    destruct (classify contentType); unfold_async; simpl;
      fold contentType; fold probed.
    + by rewrite Hc.
    + destruct Hc as [-> ->]. done.
    + destruct Hc as (-> & -> & ->). done.
    + destruct Hc as (-> & -> & ->). simpl.
      unfold recordFailure, updateIndexFilesDetached. simpl.
      rewrite <- !app_assoc. done.
  - intros message. reflexivity.
  - intros fileHash dD tD now probe1 probe2 buffer dw ex tw np rc pc fl w' extension.
    pose proof (classify_cases (contentTypeOf probe2)) as Hc.
    assert (Hext : documentExtension (contentTypeOf probe2) = extension).
    { unfold documentExtension, extension.
      destruct (classify (contentTypeOf probe2)).
      - by rewrite Hc.
      - by destruct Hc as [-> ->].
      - by destruct Hc as (-> & -> & _).
      - by destruct Hc as (-> & -> & _). }
    unfold_async. simpl. rewrite Hext.
    destruct (writeError dw) as [m|]; simpl.
    { exists []. by rewrite <- !app_assoc. }
    destruct (includes (contentTypeOf probe2) "pdf"); simpl.
    { destruct ex as [t|m]; simpl.
      - destruct (writeError tw); simpl; eexists; rewrite <- !app_assoc; simpl; reflexivity.
      - eexists; rewrite <- !app_assoc; simpl; reflexivity. }
    destruct (includes (contentTypeOf probe2) "word"); simpl.
    { destruct ex as [t|m]; simpl.
      - destruct (writeError tw); simpl; eexists; rewrite <- !app_assoc; simpl; reflexivity.
      - eexists; rewrite <- !app_assoc; simpl; reflexivity. }
    exists []. by rewrite <- !app_assoc.
Qed.

(** C4, as stated, fails twice: a URL probed as [application/pdf] whose
    second probe fails is saved as [.bin], not [.pdf]; a content type that
    contains [html] and also [word] is downloaded as a document and no page
    is opened. *)
Lemma dispatch_counterexample :
  let st1 := processUrl sampleHash flakyPdfWorld samplePdfUrl (boot Missing Missing ∅) in
  let st2 := processUrl sampleHash keywordPageWorld samplePageUrl (boot Missing Missing ∅) in
  (includes (contentTypeOf (probe flakyPdfWorld)) "pdf" = true
   ∧ (WriteFile "out/doc/fp25.pdf" ∉ calls st1)
   ∧ WriteFile "out/doc/fp25.bin" ∈ calls st1)
  ∧ (includes (contentTypeOf (probe keywordPageWorld)) "html" = true
     ∧ FetchBody samplePageUrl ∈ calls st2
     ∧ (NewPage ∉ calls st2)).
Proof.
  cbv zeta. repeat split; try (vm_compute; reflexivity); decide_now.
Qed.

(** C10. When the dispatch probe names a document but the worker's own
    probe contains neither [pdf] nor [word], a body that downloads and
    writes without error is saved under the [.bin] extension first; only
    then does the worker throw [Unsupported document type]: the URL is
    recorded as failed, the index gets no entry, the [.bin] file stays. *)
Theorem reprobe_mismatch_leaves_bin hashUrl now probe1 probe2 buffer ex tw np rc pc fl
    (url : string) (st : State) :
  let w := mkWorld now probe1 probe2 (Resolved buffer) Written ex tw np rc pc fl in
  let st' := processUrl hashUrl w url st in
  let binPath := path_join docDir (hashUrl url +:+ ".bin") in
  (includes (contentTypeOf probe1) "pdf" || includes (contentTypeOf probe1) "word") = true →
  includes (contentTypeOf probe2) "pdf" = false →
  includes (contentTypeOf probe2) "word" = false →
  snd (processDocument w url (hashUrl url) docDir textDir (call (FetchHead url) st))
    = Rejected ("Unsupported document type: " +:+ contentTypeOf probe2)
  ∧ calls st' = calls st ++ [FetchHead url; FetchHead url; FetchBody url; WriteFile binPath;
                             WriteFile indexPath; WriteFile failedPath]
  ∧ failedUrls st' = failedUrls st ++
      [mkFailure url ("Unsupported document type: " +:+ contentTypeOf probe2) now]
  ∧ urlMap st' = urlMap st
  ∧ binPath ∈ files st'.
Proof.
  intros w st' binPath H1 Hpdf Hword. subst st' binPath.
  unfold_async. simpl. rewrite H1. unfold documentExtension.
  rewrite Hpdf, Hword. simpl.
  unfold recordFailure, updateIndexFilesDetached. simpl.
  rewrite <- !app_assoc. simpl.
  repeat split; try done. set_solver.
Qed.

Lemma reprobe_mismatch_leaves_bin_witness :
  let st' := processUrl sampleHash flakyPdfWorld samplePdfUrl (boot Missing Missing ∅) in
  failedUrls st' =
    [mkFailure samplePdfUrl "Unsupported document type: " "2024-01-01T00:00:00.000Z"]
  ∧ urlMap st' = ∅
  ∧ "out/doc/fp25.bin" ∈ files st'.
Proof.
  pose proof (reprobe_mismatch_leaves_bin sampleHash "2024-01-01T00:00:00.000Z"
    (Resolved (Some "application/pdf")) (Rejected "fetch failed") "%PDF-1.4"
    (Resolved "some text") Written (Resolved tt) Captured (Resolved tt)
    (Written, Written) samplePdfUrl (boot Missing Missing ∅)
    eq_refl eq_refl eq_refl) as (_ & _ & Hf & Hm & Hb).
  split; [exact Hf|]. split; [exact Hm|]. exact Hb.
Defined.

(** C7. For a web page (content type with [html] and neither [pdf] nor
    [word]) whose screenshot, HTML and text files all exist under the URL's
    fingerprint, the iteration stores the three fingerprinted names in the
    index and awaits the flush; apart from the probe and the two index
    writes it makes no call, so no page is opened and nothing is
    navigated. *)
Theorem skip_on_exists hashUrl (w : World) (url : string) (st : State) :
  let fileHash := hashUrl url in
  let st' := processUrl hashUrl w url st in
  classify (contentTypeOf (probe w)) = WebPage →
  screenshotPath fileHash ∈ files st →
  htmlPath fileHash ∈ files st →
  textPath fileHash ∈ files st →
  urlMap st' = <[url := PageArtifacts (fileHash +:+ ".png") (fileHash +:+ ".html")
                                       (fileHash +:+ ".txt")]> (urlMap st)
  ∧ calls st' = calls st ++ [FetchHead url; WriteFile indexPath; WriteFile failedPath]
  ∧ indexFile st' = writeJson (fst (flush w)) (urlMap st') (indexFile st)
  ∧ failedFile st' = writeJson (snd (flush w)) (failedUrls st') (failedFile st)
  ∧ failedUrls st' = failedUrls st
  ∧ pendingFlushes st' = pendingFlushes st
  ∧ openPages st' = openPages st.
Proof.
  intros fileHash st' Hc Hs Hh Ht. subst st'.
  pose proof (classify_cases (contentTypeOf (probe w))) as Hi.
  rewrite Hc in Hi. destruct Hi as (Hpdf & Hword & Hhtml).
  unfold_async. simpl. rewrite Hpdf, Hword, Hhtml. simpl.
  unfold fileExists. simpl. fold fileHash.
  rewrite !bool_decide_eq_true_2 by done. simpl.
  unfold updateIndexFiles. simpl. rewrite <- !app_assoc. done.
Qed.

Lemma skip_on_exists_witness :
  let st' := processUrl sampleHash quietWorld samplePageUrl capturedDisk in
  urlMap st' = {[ samplePageUrl := PageArtifacts "fp21.png" "fp21.html" "fp21.txt" ]}
  ∧ calls st' = [FetchHead samplePageUrl; WriteFile indexPath; WriteFile failedPath].
Proof.
  pose proof (skip_on_exists sampleHash quietWorld samplePageUrl capturedDisk) as H.
  destruct H as (Hm & Hcalls & _).
  - reflexivity.
  - decide_now.
  - decide_now.
  - decide_now.
  - split; [exact Hm | exact Hcalls].
Defined.

(** *** What the capture steps leave untouched *)

Section RunSteps.
Variables (url fileHash : string).

Lemma runSteps_snoc steps s st :
  runSteps url fileHash (steps ++ [s]) st
  = stepDone fileHash s (call (stepStart url fileHash s) (runSteps url fileHash steps st)).
Proof. unfold runSteps. by rewrite foldl_app. Qed.

Lemma stepDone_fields s st :
  urlMap (stepDone fileHash s st) = urlMap st
  ∧ failedUrls (stepDone fileHash s st) = failedUrls st
  ∧ indexFile (stepDone fileHash s st) = indexFile st
  ∧ failedFile (stepDone fileHash s st) = failedFile st
  ∧ pendingFlushes (stepDone fileHash s st) = pendingFlushes st
  ∧ abandoned (stepDone fileHash s st) = abandoned st
  ∧ openPages (stepDone fileHash s st) = openPages st
  ∧ calls (stepDone fileHash s st) = calls st.
Proof. by destruct s. Qed.

Lemma runSteps_fields steps : ∀ st,
  urlMap (runSteps url fileHash steps st) = urlMap st
  ∧ failedUrls (runSteps url fileHash steps st) = failedUrls st
  ∧ indexFile (runSteps url fileHash steps st) = indexFile st
  ∧ failedFile (runSteps url fileHash steps st) = failedFile st
  ∧ pendingFlushes (runSteps url fileHash steps st) = pendingFlushes st
  ∧ abandoned (runSteps url fileHash steps st) = abandoned st
  ∧ openPages (runSteps url fileHash steps st) = openPages st
  ∧ calls (runSteps url fileHash steps st)
    = calls st ++ (stepStart url fileHash <$> steps).
Proof.
  induction steps as [|s steps IH] using rev_ind; intros st.
  - simpl. by rewrite app_nil_r.
  - rewrite runSteps_snoc.
    destruct (IH st) as (H1 & H2 & H3 & H4 & H5 & H6 & H7 & H8).
    destruct (stepDone_fields s
      (call (stepStart url fileHash s) (runSteps url fileHash steps st)))
      as (E1 & E2 & E3 & E4 & E5 & E6 & E7 & E8).
    rewrite E1, E2, E3, E4, E5, E6, E7, E8. simpl.
    rewrite H1, H2, H3, H4, H5, H6, H7, H8, fmap_app, app_assoc. done.
Qed.

Lemma runSteps_urlMap steps st : urlMap (runSteps url fileHash steps st) = urlMap st.
Proof. apply runSteps_fields. Qed.
Lemma runSteps_failedUrls steps st :
  failedUrls (runSteps url fileHash steps st) = failedUrls st.
Proof. apply runSteps_fields. Qed.
Lemma runSteps_indexFile steps st :
  indexFile (runSteps url fileHash steps st) = indexFile st.
Proof. apply runSteps_fields. Qed.
Lemma runSteps_failedFile steps st :
  failedFile (runSteps url fileHash steps st) = failedFile st.
Proof. apply runSteps_fields. Qed.
Lemma runSteps_pendingFlushes steps st :
  pendingFlushes (runSteps url fileHash steps st) = pendingFlushes st.
Proof. apply runSteps_fields. Qed.
Lemma runSteps_abandoned steps st :
  abandoned (runSteps url fileHash steps st) = abandoned st.
Proof. apply runSteps_fields. Qed.
Lemma runSteps_openPages steps st :
  openPages (runSteps url fileHash steps st) = openPages st.
Proof. apply runSteps_fields. Qed.
Lemma runSteps_calls steps st :
  calls (runSteps url fileHash steps st) = calls st ++ (stepStart url fileHash <$> steps).
Proof. apply runSteps_fields. Qed.

End RunSteps.

Create Rewrite HintDb fields.
#[local] Hint Rewrite runSteps_urlMap runSteps_failedUrls runSteps_indexFile
  runSteps_failedFile runSteps_pendingFlushes runSteps_abandoned
  runSteps_openPages runSteps_calls : fields.

Lemma recordFailure_fields (url message now : string) (st : State) :
  let st' := recordFailure url message now st in
  urlMap st' = urlMap st
  ∧ failedUrls st' = failedUrls st ++ [mkFailure url message now]
  ∧ indexFile st' = indexFile st ∧ failedFile st' = failedFile st
  ∧ files st' = files st
  ∧ pendingFlushes st' = pendingFlushes st ++ [(urlMap st', failedUrls st')]
  ∧ openPages st' = openPages st
  ∧ calls st' = calls st ++ [WriteFile indexPath; WriteFile failedPath].
Proof.
  unfold recordFailure, updateIndexFilesDetached. simpl.
  rewrite <- !app_assoc. done.
Qed.

(** Case analysis along the path an iteration takes. *)
Ltac walk :=
  repeat (simpl;
    match goal with
    | |- context [match ?x with _ => _ end] =>
        lazymatch x with
        | context [match _ with _ => _ end] => fail
        | _ => destruct x eqn:?
        end
    end).

(** Shape of an iteration: either it ends in success, having awaited one
    flush of the state it leaves, or its last act is [recordFailure]. *)
Lemma processUrl_shape hashUrl (w : World) (url : string) (st : State) :
  let st' := processUrl hashUrl w url st in
  (failedUrls st' = failedUrls st
   ∧ pendingFlushes st' = pendingFlushes st
   ∧ indexFile st' = writeJson (fst (flush w)) (urlMap st') (indexFile st)
   ∧ failedFile st' = writeJson (snd (flush w)) (failedUrls st') (failedFile st)
   ∧ is_Some (urlMap st' !! url))
  ∨ (∃ message st1,
       st' = recordFailure url message (clock w) st1
       ∧ failedUrls st1 = failedUrls st).
Proof.
  unfold_async. walk.
  all: first
    [ solve [ right; do 2 eexists; split; [reflexivity|];
              simpl; autorewrite with fields; reflexivity ]
    | solve [ left; unfold updateIndexFiles; simpl; autorewrite with fields; simpl;
              repeat split; try reflexivity;
              rewrite lookup_insert_eq; eauto ] ].
Qed.











(** ** Durability *)

Lemma processUrl_flush_irrelevant hashUrl (w : World) (url : string) (st : State) r :
  urlMap (processUrl hashUrl (withFlush r w) url st) = urlMap (processUrl hashUrl w url st)
  ∧ failedUrls (processUrl hashUrl (withFlush r w) url st)
    = failedUrls (processUrl hashUrl w url st).
Proof.
  unfold_async. unfold withFlush. walk.
  all: unfold updateIndexFiles; simpl; autorewrite with fields; done.
Qed.

(** C2, as amended. An iteration that ends in success has awaited one flush
    of the index and the ledger it leaves in memory: each file holds that
    state if its write succeeded, and no write is left under way. An
    iteration that ends in failure has only started the flush: the write
    calls are issued with the state it leaves in memory, and the loop goes
    on without waiting for them. What the flush answers, errors included,
    changes neither the index nor the ledger in memory. *)
Theorem flush_after_outcome hashUrl (w : World) (url : string) (st : State)
    (r : WriteResult * WriteResult) :
  let st' := processUrl hashUrl w url st in
  ((failedUrls st' = failedUrls st
    ∧ pendingFlushes st' = pendingFlushes st
    ∧ indexFile st' = writeJson (fst (flush w)) (urlMap st') (indexFile st)
    ∧ failedFile st' = writeJson (snd (flush w)) (failedUrls st') (failedFile st))
   ∨ (∃ message,
        failedUrls st' = failedUrls st ++ [mkFailure url message (clock w)]
        ∧ last (pendingFlushes st') = Some (urlMap st', failedUrls st')))
  ∧ urlMap (processUrl hashUrl (withFlush r w) url st) = urlMap st'
  ∧ failedUrls (processUrl hashUrl (withFlush r w) url st) = failedUrls st'.
Proof.
  intros st'. split; [|apply processUrl_flush_irrelevant].
  destruct (processUrl_shape hashUrl w url st)
    as [(H1 & H2 & H3 & H4 & _)|(m & st1 & Hst & H1)].
  - left. by fold st' in H1, H2, H3, H4.
  - right. exists m. fold st' in Hst. rewrite Hst.
    destruct (recordFailure_fields url m (clock w) st1) as (_ & Hf & _ & _ & _ & Hp & _).
    rewrite Hp, last_snoc, Hf, H1. done.
Qed.

(** C2, as stated, fails after a failure: once an unsupported URL has been
    recorded the loop is at the next URL while the ledger file is still
    absent from the disk, the write being under way. *)
Lemma flush_not_awaited_counterexample :
  let p := run sampleHash
             (launchProcess [sampleImageUrl; samplePageUrl] (boot Missing Missing ∅))
             [LoopHead; UrlSettles imageWorld; LoopHead] in
  inFlight p = Some samplePageUrl
  ∧ failedUrls (mem p)
    = [mkFailure sampleImageUrl "Unsupported content type: image/png"
                 "2024-01-01T00:00:00.000Z"]
  ∧ failedFile (mem p) = Missing
  ∧ pendingFlushes (mem p) = [(urlMap (mem p), failedUrls (mem p))].
Proof. vm_compute. done. Qed.

(** ** Page capture *)

Lemma stepStart_not_close (url fileHash : string) (steps : list CaptureStep) :
  PageClose ∉ (stepStart url fileHash <$> steps).
Proof.
  intros H. apply list_elem_of_fmap in H as (s & Hs & _). by destruct s.
Qed.

(** C3, on the code. For a web page whose files are not all present and
    whose page opens, every outcome of the race other than a finished
    capture is recorded as one failure ([Processing timeout] when the timer
    fires during a step, the message of the error when a step throws) and
    the loop body ends there; but the page is not closed: the count of open
    pages is one higher than before and [page.close()] is not among the
    calls made. *)
Theorem failed_capture_leaves_page_open hashUrl (w : World) (url : string) (st : State) :
  let fileHash := hashUrl url in
  let st' := processUrl hashUrl w url st in
  classify (contentTypeOf (probe w)) = WebPage →
  forallb (λ p, fileExists p st)
          [screenshotPath fileHash; htmlPath fileHash; textPath fileHash] = false →
  newPage w = Resolved tt →
  race w ≠ Captured →
  (∃ message,
     failedUrls st' = failedUrls st ++ [mkFailure url message (clock w)]
     ∧ (∀ pending, race w = TimerFirst pending → message = "Processing timeout")
     ∧ (∀ step thrown, race w = CaptureError step thrown →
          message = reportedMessage thrown))
  ∧ openPages st' = S (openPages st)
  ∧ ∃ new, calls st' = calls st ++ new ∧ PageClose ∉ new.
Proof.
  intros fileHash st' Hc Hfiles Hnew Hrace. subst st'.
  pose proof (classify_cases (contentTypeOf (probe w))) as Hi.
  rewrite Hc in Hi. destruct Hi as (Hpdf & Hword & Hhtml).
  unfold_async. simpl. rewrite Hpdf, Hword, Hhtml. simpl.
  fold fileHash. unfold fileExists in *. simpl in *. rewrite Hfiles, Hnew. simpl.
  destruct (race w) as [|step message|pending|] eqn:Er; [done| | |]; simpl.
  all: autorewrite with fields; simpl.
  all: split; [eexists; split; [reflexivity|split; intros; by simplify_eq]|].
  all: split; [done|].
  all: rewrite <- !app_assoc; eexists; split; [reflexivity|].
  all: rewrite ?not_elem_of_app, ?not_elem_of_cons; repeat split; try done.
  all: try apply stepStart_not_close; try apply not_elem_of_nil.
  all: try by destruct step.
  all: by destruct pending.
Qed.

Lemma failed_capture_leaves_page_open_witness :
  let st' := processUrl sampleHash slowPageWorld sampleSlowUrl (boot Missing Missing ∅) in
  openPages st' = 1 ∧ (PageClose ∉ calls st').
Proof.
  destruct (failed_capture_leaves_page_open sampleHash slowPageWorld sampleSlowUrl
              (boot Missing Missing ∅)) as (_ & Hopen & new & Hcalls & Hnew).
  - reflexivity.
  - vm_compute. reflexivity.
  - reflexivity.
  - discriminate.
  - split; [exact Hopen|]. cbv zeta. rewrite Hcalls. exact Hnew.
Defined.


(** ** Shutdown *)








(** ** The loop as a schedule of the process *)

Lemma run_app hashUrl (p : Process) (first later : list Event) :
  run hashUrl p (first ++ later) = run hashUrl (run hashUrl p first) later.
Proof. apply foldl_app. Qed.

Lemma run_behind hashUrl (bs : list Background) : ∀ st rest cur n flag stage over,
  run hashUrl (mkProcess st rest cur n flag stage over None) (Behind <$> bs)
  = mkProcess (foldl (λ acc b, background hashUrl b acc) st bs)
              rest cur n flag stage over None.
Proof.
  induction bs as [|b bs IH]; intros st rest cur n flag stage over; simpl; [done|].
  unfold withMem. simpl. apply IH.
Qed.

Lemma run_cons hashUrl (p : Process) (e : Event) (later : list Event) :
  run hashUrl p (e :: later) = run hashUrl (step hashUrl p e) later.
Proof. reflexivity. Qed.

(** Without a signal the process goes through the work list exactly as
    [processLoop] does, then runs the [finally] block. *)
Lemma quiet_run_is_processLoop hashUrl env (work : list string) : ∀ n st,
  run hashUrl (mkProcess st work None n false Idle false None) (quietSchedule env n work)
  = mkProcess (closeContext (snd (processLoop hashUrl env n work st))) [] None
              (fst (processLoop hashUrl env n work st)) false Idle true None.
Proof.
  induction work as [|u work IH]; intros n st; [done|].
  cbn [quietSchedule processLoop]. destruct (env n) as [bs w].
  rewrite run_cons, run_app.
  change (step hashUrl (mkProcess st (u :: work) None n false Idle false None) LoopHead)
    with (mkProcess st work (Some u) (S n) false Idle false None).
  rewrite run_behind, run_cons. apply IH.
Qed.

(** * Further properties *)

(** ** Text of a page *)

Lemma trimStart_spec (s : string) :
  (trimStart s = "" ∧ blank s = true)
  ∨ (∃ c rest, trimStart s = String c rest ∧ isWhiteSpace c = false
       ∧ blank s = false).
Proof.
  induction s as [|c s IH]; [by left|].
  unfold blank. simpl. destruct (isWhiteSpace c) eqn:Hc; simpl.
  - exact IH.
  - right. by exists c, s.
Qed.

Lemma trimEnd_empty (s : string) : trimEnd s = "" ↔ blank s = true.
Proof.
  induction s as [|c s IH]; [done|].
  unfold blank in *. simpl.
  destruct (trimEnd s) as [|d kept] eqn:Hk.
  - destruct (isWhiteSpace c); simpl; [tauto|]. split; done.
  - split; [done|]. intros H. apply andb_true_iff in H as [_ H].
    apply IH in H. done.
Qed.

Lemma trimEnd_head (c : ascii) (s : string) :
  isWhiteSpace c = false → ∃ kept, trimEnd (String c s) = String c kept.
Proof.
  intros Hc. simpl. destruct (trimEnd s) as [|d kept].
  - rewrite Hc. by exists "".
  - by eexists.
Qed.

Lemma trimEnd_idem (s : string) : trimEnd (trimEnd s) = trimEnd s.
Proof.
  induction s as [|c s IH]; [done|]. simpl.
  destruct (trimEnd s) as [|d kept] eqn:Hk.
  - destruct (isWhiteSpace c) eqn:Hc; [done|]. simpl. by rewrite Hc.
  - change (trimEnd (String c (String d kept))) with
      (match trimEnd (String d kept) with
       | EmptyString => if isWhiteSpace c then EmptyString else String c EmptyString
       | k => String c k
       end).
    by rewrite IH.
Qed.

Lemma trimEnd_last (s : string) (c : ascii) :
  lastChar (trimEnd s) = Some c → isWhiteSpace c = false.
Proof.
  revert c. induction s as [|d s IH]; intros c; [done|]. simpl.
  destruct (trimEnd s) as [|e kept] eqn:Hk.
  - destruct (isWhiteSpace d) eqn:Hd; [done|]. simpl. by intros [= <-].
  - intros H. apply IH. exact H.
Qed.

Lemma trim_idem (s : string) : trim (trim s) = trim s.
Proof.
  unfold trim.
  destruct (trimStart_spec s) as [[-> _]|(c & rest & -> & Hc & _)]; [done|].
  destruct (trimEnd_head c rest Hc) as [kept Hk]. rewrite Hk.
  simpl trimStart. rewrite Hc. rewrite <- Hk. apply trimEnd_idem.
Qed.

Lemma trim_empty (s : string) : trim s = "" ↔ blank s = true.
Proof.
  unfold trim.
  destruct (trimStart_spec s) as [[-> Hb]|(c & rest & -> & Hc & Hb)].
  - by rewrite Hb.
  - destruct (trimEnd_head c rest Hc) as [kept ->]. by rewrite Hb.
Qed.

(** a trimmed line that is not empty begins and ends with something else
    than white space *)
Lemma trim_ends (s : string) :
  trim s ≠ "" →
  (∃ c, firstChar (trim s) = Some c ∧ isWhiteSpace c = false)
  ∧ (∃ c, lastChar (trim s) = Some c ∧ isWhiteSpace c = false).
Proof.
  intros Hne. split.
  - unfold trim in *.
    destruct (trimStart_spec s) as [[H _]|(c & rest & H & Hc & _)];
      rewrite H in *; [done|].
    destruct (trimEnd_head c rest Hc) as [kept ->]. by exists c.
  - destruct (lastChar (trim s)) as [c|] eqn:Hl.
    + exists c. split; [done|]. by apply (trimEnd_last (trimStart s)).
    + exfalso. apply Hne. clear Hne.
      destruct (trim s) as [|c r]; [done|].
      exfalso. revert c Hl. induction r as [|d r IH]; intros c; [done|].
      intros H. by apply (IH d).
Qed.

Lemma splitLines_cons (s : string) : ∃ line lines, splitLines s = line :: lines.
Proof.
  induction s as [|c s (line & lines & IH)]; [by exists "", []|]. simpl.
  destruct (Ascii.eqb c newline); [by eexists _, _|].
  rewrite IH. by eexists _, _.
Qed.

Lemma splitLines_no_newline (s : string) :
  Forall (λ line, newline ∉ list_ascii_of_string line) (splitLines s).
Proof.
  induction s as [|c s IH]; simpl.
  - constructor; [apply not_elem_of_nil | constructor].
  - destruct (Ascii.eqb c newline) eqn:Hc.
    + constructor; [apply not_elem_of_nil | exact IH].
    + destruct (splitLines s) as [|line lines]; simpl.
      * constructor; [|constructor]. apply Ascii.eqb_neq in Hc.
        intros H. apply list_elem_of_singleton in H. congruence.
      * inversion IH as [|? ? Hline Hlines]; subst. constructor; [|done].
        apply Ascii.eqb_neq in Hc. simpl. rewrite not_elem_of_cons. split; congruence.
Qed.

(** splitting at the line feeds and joining again gives the text back *)
Lemma joinLines_splitLines (s : string) : joinLines (splitLines s) = s.
Proof.
  induction s as [|c s IH]; [done|]. simpl.
  destruct (splitLines_cons s) as (line & lines & Hs). rewrite Hs in *.
  destruct (Ascii.eqb c newline) eqn:Hc.
  - apply Ascii.eqb_eq in Hc as ->.
    change (joinLines ("" :: line :: lines))
      with (String newline (joinLines (line :: lines))).
    by rewrite IH.
  - destruct lines as [|next lines].
    + simpl in *. by rewrite IH.
    + change (joinLines (String c line :: next :: lines))
        with (String c (joinLines (line :: next :: lines))).
      by rewrite IH.
Qed.

Lemma splitLines_line (line : string) :
  newline ∉ list_ascii_of_string line → splitLines line = [line].
Proof.
  induction line as [|c line IH]; [done|]. simpl.
  rewrite not_elem_of_cons. intros [Hc Hrest].
  destruct (Ascii.eqb c newline) eqn:E; [apply Ascii.eqb_eq in E; congruence|].
  by rewrite IH.
Qed.

Lemma splitLines_app (line rest : string) :
  newline ∉ list_ascii_of_string line →
  splitLines (line +:+ String newline rest) = line :: splitLines rest.
Proof.
  induction line as [|c line IH]; simpl.
  - intros _. reflexivity.
  - rewrite not_elem_of_cons. intros [Hc Hrest].
    destruct (Ascii.eqb c newline) eqn:E; [apply Ascii.eqb_eq in E; congruence|].
    by rewrite IH.
Qed.

Lemma splitLines_joinLines (lines : list string) :
  lines ≠ [] →
  Forall (λ line, newline ∉ list_ascii_of_string line) lines →
  splitLines (joinLines lines) = lines.
Proof.
  induction lines as [|line lines IH]; [done|]. intros _ Hall.
  inversion Hall as [|? ? Hline Hrest]; subst.
  destruct lines as [|next lines].
  - by apply splitLines_line.
  - change (joinLines (line :: next :: lines))
      with (line +:+ String newline (joinLines (next :: lines))).
    rewrite splitLines_app by done. by rewrite IH.
Qed.

Lemma trimStart_chars (s : string) (c : ascii) :
  c ∈ list_ascii_of_string (trimStart s) → c ∈ list_ascii_of_string s.
Proof.
  induction s as [|d s IH]; [done|]. simpl.
  destruct (isWhiteSpace d); [|done]. intros H. right. by apply IH.
Qed.

Lemma trimEnd_chars (s : string) (c : ascii) :
  c ∈ list_ascii_of_string (trimEnd s) → c ∈ list_ascii_of_string s.
Proof.
  revert c. induction s as [|d s IH]; intros c; [done|]. simpl.
  destruct (trimEnd s) as [|e kept].
  - destruct (isWhiteSpace d); simpl; [by intros ?%elem_of_nil|].
    intros H%list_elem_of_singleton. subst. by left.
  - simpl in *. rewrite !elem_of_cons. intros [->|H]; [by left|].
    right. apply IH. by rewrite elem_of_cons.
Qed.

Lemma trim_chars (s : string) (c : ascii) :
  c ∈ list_ascii_of_string (trim s) → c ∈ list_ascii_of_string s.
Proof. intros H. by apply trimStart_chars, trimEnd_chars. Qed.

Lemma nonEmpty_true (s : string) : nonEmpty s = true ↔ s ≠ "".
Proof. by destruct s. Qed.

(** the lines that make up the extracted text *)
Lemma keptLines_spec (s : string) :
  Forall (λ line, line ≠ "" ∧ trim line = line
                  ∧ newline ∉ list_ascii_of_string line)
         (List.filter nonEmpty (List.map trim (splitLines s))).
Proof.
  apply Forall_forall. intros line Hin.
  apply list_elem_of_In, filter_In in Hin as [Hin Hne].
  apply in_map_iff in Hin as (raw & <- & Hraw).
  split; [by apply nonEmpty_true|]. split; [apply trim_idem|].
  intros Hnl. apply trim_chars in Hnl.
  pose proof (splitLines_no_newline s) as Hall.
  rewrite Forall_forall in Hall. apply (Hall raw); [by apply list_elem_of_In|done].
Qed.

Lemma filter_nonEmpty_id (lines : list string) :
  Forall (λ line, line ≠ "") lines → List.filter nonEmpty lines = lines.
Proof.
  induction 1 as [|line lines Hne _ IH]; [done|]. simpl.
  destruct line; [done|]. simpl. by rewrite IH.
Qed.

Lemma map_trim_id (lines : list string) :
  Forall (λ line, trim line = line) lines → List.map trim lines = lines.
Proof. induction 1 as [|line lines Ht _ IH]; [done|]. simpl. by rewrite Ht, IH. Qed.

Lemma extractPageText_lines (s : string) :
  List.filter nonEmpty (List.map trim (splitLines s)) ≠ [] →
  splitLines (extractPageText s)
  = List.filter nonEmpty (List.map trim (splitLines s)).
Proof.
  intros Hne. apply splitLines_joinLines; [done|].
  eapply Forall_impl; [apply keptLines_spec|]. by intros line (_ & _ & H).
Qed.

(** X1. The extracted text is empty, or each of its lines begins and ends
    with a character that is not white space: no line of it is empty, none
    is padded. *)
Theorem extractPageText_lines_trimmed (innerText : string) :
  extractPageText innerText = ""
  ∨ Forall (λ line,
             (∃ c, firstChar line = Some c ∧ isWhiteSpace c = false)
             ∧ (∃ c, lastChar line = Some c ∧ isWhiteSpace c = false))
           (splitLines (extractPageText innerText)).
Proof.
  destruct (List.filter nonEmpty (List.map trim (splitLines innerText)))
    as [|line lines] eqn:Hk.
  - left. unfold extractPageText. by rewrite Hk.
  - right. rewrite extractPageText_lines by (by rewrite Hk).
    eapply Forall_impl; [apply keptLines_spec|].
    intros l (Hne & Ht & _). simpl.
    pose proof (trim_ends l) as H. rewrite Ht in H. by apply H.
Qed.

(** X2. Extracting the text of an already extracted text changes
    nothing. *)
Theorem extractPageText_idempotent (innerText : string) :
  extractPageText (extractPageText innerText) = extractPageText innerText.
Proof.
  destruct (List.filter nonEmpty (List.map trim (splitLines innerText)))
    as [|line lines] eqn:Hk.
  - unfold extractPageText at 2 3. by rewrite Hk.
  - unfold extractPageText at 1. rewrite extractPageText_lines by (by rewrite Hk).
    pose proof (keptLines_spec innerText) as Hall.
    rewrite map_trim_id, filter_nonEmpty_id; [done| |].
    + eapply Forall_impl; [exact Hall|]. by intros l (H & _).
    + eapply Forall_impl; [exact Hall|]. by intros l (_ & H & _).
Qed.

Lemma blank_app (a b : string) : blank (a +:+ b) = blank a && blank b.
Proof.
  unfold blank. induction a as [|c a IH]; [done|]. simpl.
  by rewrite IH, andb_assoc.
Qed.

Lemma blank_joinLines (lines : list string) :
  Forall (λ line, blank line = true) lines → blank (joinLines lines) = true.
Proof.
  induction 1 as [|line lines Hb _ IH]; [done|].
  destruct lines as [|next lines]; [done|].
  change (joinLines (line :: next :: lines))
    with (line +:+ String newline (joinLines (next :: lines))).
  rewrite blank_app, Hb. exact IH.
Qed.

Lemma blank_splitLines (s : string) :
  blank s = true → Forall (λ line, blank line = true) (splitLines s).
Proof.
  induction s as [|c s IH]; [by repeat constructor|].
  unfold blank in *. simpl. intros [Hc Hs]%andb_true_iff.
  specialize (IH Hs).
  destruct (Ascii.eqb c newline); [by constructor|].
  destruct (splitLines s) as [|line lines]; simpl.
  - repeat constructor. simpl. by rewrite Hc.
  - inversion IH; subst. constructor; [|done]. simpl. by rewrite Hc.
Qed.

Lemma joinLines_empty (lines : list string) :
  Forall (λ line, line ≠ "") lines → joinLines lines = "" → lines = [].
Proof.
  intros Hall. destruct Hall as [|line lines Hne _]; [done|].
  destruct line as [|c line]; [done|]. by destruct lines.
Qed.

Lemma filter_nonEmpty_nil (lines : list string) :
  List.filter nonEmpty lines = [] → Forall (λ line, line = "") lines.
Proof.
  induction lines as [|line lines IH]; [by constructor|]. simpl.
  destruct line; simpl; [|done]. intros H. constructor; [done|by apply IH].
Qed.

(** X3. The extracted text is empty exactly when the page text holds
    nothing but white space (line feeds included), the empty text among
    them. *)
Theorem extractPageText_empty_iff_blank (innerText : string) :
  extractPageText innerText = "" ↔ blank innerText = true.
Proof.
  split.
  - intros Hempty. unfold extractPageText in Hempty.
    apply joinLines_empty in Hempty.
    2: { eapply Forall_impl; [apply keptLines_spec|]. by intros l (H & _). }
    apply filter_nonEmpty_nil in Hempty.
    rewrite <- (joinLines_splitLines innerText). apply blank_joinLines.
    apply Forall_forall. intros line Hin.
    rewrite Forall_forall in Hempty. apply trim_empty, Hempty.
    apply list_elem_of_In, in_map, list_elem_of_In, Hin.
  - intros Hb. unfold extractPageText.
    replace (List.filter nonEmpty (List.map trim (splitLines innerText)))
      with (@nil string); [done|].
    symmetry. pose proof (blank_splitLines innerText Hb) as Hall.
    induction Hall as [|line lines Hline _ IH]; [done|]. simpl.
    apply trim_empty in Hline. by rewrite Hline.
Qed.

(** ** What an iteration can change *)

Lemma stepDone_files (fileHash : string) (s : CaptureStep) (st : State) :
  files st ⊆ files (stepDone fileHash s st).
Proof. destruct s; simpl; set_solver. Qed.

Lemma runSteps_files (url fileHash : string) (steps : list CaptureStep) : ∀ st,
  files st ⊆ files (runSteps url fileHash steps st).
Proof.
  induction steps as [|s steps IH] using rev_ind; intros st; [done|].
  rewrite runSteps_snoc. etrans; [apply IH|].
  etrans; [|apply stepDone_files]. done.
Qed.

Lemma writeArtifact_grows (r : WriteResult) (path : string) (fs : gset string) :
  fs ⊆ writeArtifact r path fs.
Proof. destruct r as [|m []]; simpl; set_solver. Qed.

Ltac grow_files :=
  repeat first
    [ reflexivity
    | assumption
    | etrans; [|apply writeArtifact_grows]
    | etrans; [|apply runSteps_files] ].

Lemma processUrl_files hashUrl (w : World) (url : string) (st : State) :
  files st ⊆ files (processUrl hashUrl w url st).
Proof.
  unfold_async. walk.
  all: unfold updateIndexFiles, recordFailure, updateIndexFilesDetached; simpl.
  all: grow_files.
  all: set_solver.
Qed.

(** ** File names *)

Lemma prefix_empty (s : string) : String.prefix "" s = true.
Proof. by destruct s. Qed.

Lemma includes_char (s : string) (c : ascii) :
  includes s (String c "") = existsb (Ascii.eqb c) (list_ascii_of_string s).
Proof.
  induction s as [|d s IH]; [done|].
  change (includes (String d s) (String c ""))
    with (String.prefix (String c "") (String d s) || includes s (String c "")).
  rewrite IH. simpl. destruct (Ascii.ascii_dec c d) as [->|Hne].
  - by rewrite prefix_empty, Ascii.eqb_refl.
  - apply Ascii.eqb_neq in Hne. by rewrite Hne.
Qed.

Lemma includes_char_app (a b : string) (c : ascii) :
  includes (a +:+ b) (String c "")
  = includes a (String c "") || includes b (String c "").
Proof.
  rewrite !includes_char. induction a as [|d a IH]; [done|]. simpl.
  by rewrite IH, orb_assoc.
Qed.

Lemma path_basename_after_slash (file : string) :
  includes file "/" = false →
  ∀ dir, path_basename (dir +:+ String "/"%char file) = file.
Proof.
  intros Hfile. induction dir as [|c dir IH]; simpl.
  - by rewrite Hfile.
  - rewrite IH.
    assert (includes (dir +:+ String "/"%char file) "/" = true) as ->; [|done].
    apply includes_split. by exists dir, file.
Qed.

Lemma documentExtension_no_slash (contentType : string) :
  includes (documentExtension contentType) "/" = false.
Proof.
  unfold documentExtension.
  by destruct (includes contentType "pdf"), (includes contentType "word").
Qed.

Lemma docPath_basename (fileHash contentType : string) :
  includes fileHash "/" = false →
  path_basename (path_join docDir (fileHash +:+ documentExtension contentType))
  = fileHash +:+ documentExtension contentType.
Proof.
  intros Hhash.
  apply (path_basename_after_slash _
           ltac:(by rewrite includes_char_app, Hhash, documentExtension_no_slash)
           "out/doc").
Qed.

(** X4. For a fingerprint without [/] the document name stored in the
    index, the base name of the path the document was saved under, is the
    fingerprint followed by the extension, so the entry names the saved
    file. *)
Theorem document_name_is_fingerprint (fileHash contentType : string) :
  includes fileHash "/" = false →
  let docPath := path_join docDir (fileHash +:+ documentExtension contentType) in
  path_basename docPath = fileHash +:+ documentExtension contentType
  ∧ path_join docDir (path_basename docPath) = docPath.
Proof.
  intros Hhash docPath. subst docPath.
  by rewrite docPath_basename.
Qed.

Lemma document_name_is_fingerprint_witness :
  path_basename (path_join docDir ("d41d8cd98f00b204e9800998ecf8427e"
                                   +:+ documentExtension "application/pdf"))
  = "d41d8cd98f00b204e9800998ecf8427e.pdf".
Proof.
  exact (proj1 (document_name_is_fingerprint "d41d8cd98f00b204e9800998ecf8427e"
                  "application/pdf" eq_refl)).
Defined.

#[local] Arguments path_basename : simpl never.
#[local] Arguments path_join : simpl never.

Lemma writeError_None (r : WriteResult) : writeError r = None → r = Written.
Proof. by destruct r. Qed.

(** turns what the case analysis recorded into usable facts *)
Ltac settle_facts :=
  repeat match goal with
    | H : writeError _ = None |- _ => apply writeError_None in H; rewrite ?H in *
    | H : bool_decide _ = true |- _ => apply bool_decide_eq_true in H
    | H : _ && _ = true |- _ => apply andb_true_iff in H as [? ?]
    | H : fileExists _ _ = true |- _ => unfold fileExists in H; simpl in H
    end.

Lemma processUrl_index hashUrl (w : World) (url : string) (st : State) :
  (∀ u, includes (hashUrl u) "/" = false) →
  let st' := processUrl hashUrl w url st in
  urlMap st' = urlMap st
  ∨ ∃ entry, urlMap st' = <[url := entry]> (urlMap st)
             ∧ artifactsOnDisk (files st') entry.
Proof.
  intros Hhash. cbv zeta. unfold_async. walk.
  all: unfold updateIndexFiles, recordFailure, updateIndexFilesDetached; simpl.
  all: autorewrite with fields.
  all: try (left; reflexivity).
  all: right; eexists; split; [reflexivity|].
  all: settle_facts.
  all: unfold artifactsOnDisk, pageArtifacts, screenshotPath, htmlPath, textPath in *.
  all: simpl; rewrite ?docPath_basename by apply Hhash.
  all: set_solver.
Qed.

Lemma stepDone_written (fileHash : string) (s : CaptureStep) (file : string) (st : State) :
  stepFile fileHash s = Some file → file ∈ files (stepDone fileHash s st).
Proof. destruct s; simpl; intros [= <-]; set_solver. Qed.

Lemma runSteps_written (url fileHash : string) (steps : list CaptureStep)
    (s : CaptureStep) (file : string) : ∀ st,
  s ∈ steps → stepFile fileHash s = Some file →
  file ∈ files (runSteps url fileHash steps st).
Proof.
  induction steps as [|t steps IH] using rev_ind; intros st Hin Hfile.
  - by apply elem_of_nil in Hin.
  - rewrite runSteps_snoc. apply elem_of_app in Hin as [Hin|Hin].
    + apply stepDone_files. simpl. by apply IH.
    + apply list_elem_of_singleton in Hin as ->. by apply stepDone_written.
Qed.

Lemma processUrl_abandoned hashUrl (w : World) (url : string) (st : State) :
  let st' := processUrl hashUrl w url st in
  abandoned st' = abandoned st
  ∨ ∃ pending,
      abandoned st' = abandoned st ++ [(url, pending)]
      ∧ ∀ s file, s ∈ stepsBefore pending →
                  stepFile (hashUrl url) s = Some file → file ∈ files st'.
Proof.
  cbv zeta. unfold_async. walk.
  all: unfold updateIndexFiles, recordFailure, updateIndexFilesDetached; simpl.
  all: autorewrite with fields.
  all: try (left; reflexivity).
  all: right; eexists; split; [reflexivity|].
  all: intros s file Hs Hfile; by eapply runSteps_written.
Qed.

Lemma background_files hashUrl (b : Background) (st : State) :
  files st ⊆ files (background hashUrl b st).
Proof.
  destruct b as [r|r|]; simpl.
  - by destruct (pendingFlushes st).
  - destruct (abandoned st) as [|[u pending] rest]; [done|].
    unfold updateIndexFiles. simpl.
    etrans; [|apply runSteps_files]. etrans; [|apply stepDone_files]. done.
  - by destruct (abandoned st).
Qed.

Lemma captureSteps_split (pending s : CaptureStep) :
  s ∈ stepsBefore pending ∨ s = pending ∨ s ∈ stepsAfter pending.
Proof.
  destruct pending, s; unfold stepsBefore, stepsAfter; simpl;
    rewrite ?elem_of_cons; tauto.
Qed.

Lemma artifactsOnDisk_mono (fs fs' : gset string) (entry : ArtifactSet) :
  fs ⊆ fs' → artifactsOnDisk fs entry → artifactsOnDisk fs' entry.
Proof.
  intros Hsub. destruct entry; simpl.
  - intros (H1 & H2 & H3). repeat split; by apply Hsub.
  - intros (H1 & H2). split; by apply Hsub.
Qed.

Lemma background_consistent hashUrl (b : Background) (st : State) :
  indexOnDisk st → abandonedOnDisk hashUrl st →
  indexOnDisk (background hashUrl b st)
  ∧ abandonedOnDisk hashUrl (background hashUrl b st).
Proof.
  intros Hidx Hab. destruct b as [r|r|]; simpl.
  - destruct (pendingFlushes st); done.
  - destruct (abandoned st) as [|[u pending] rest] eqn:Ha; [done|].
    set (st1 := stepDone (hashUrl u) pending (setAbandoned rest st)).
    set (st2 := runSteps u (hashUrl u) (stepsAfter pending) st1).
    assert (Hgrow : files st ⊆ files st2).
    { etrans; [|apply runSteps_files]. apply (stepDone_files _ _ (setAbandoned rest st)). }
    assert (Hall : ∀ s file, stepFile (hashUrl u) s = Some file → file ∈ files st2).
    { intros s file Hfile.
      destruct (captureSteps_split pending s) as [Hs|[->|Hs]].
      - apply Hgrow. apply (Hab u pending s); [rewrite Ha; left|done|done].
      - apply runSteps_files. by apply stepDone_written.
      - by eapply runSteps_written. }
    assert (Hmap : urlMap st2 = urlMap st).
    { subst st2 st1. rewrite runSteps_urlMap.
      by destruct (stepDone_fields (hashUrl u) pending (setAbandoned rest st))
        as (-> & _). }
    assert (Habn : abandoned st2 = rest).
    { subst st2 st1. rewrite runSteps_abandoned.
      by destruct (stepDone_fields (hashUrl u) pending (setAbandoned rest st))
        as (_ & _ & _ & _ & _ & -> & _). }
    split.
    + intros url entry. unfold updateIndexFiles. simpl.
      fold st1. fold st2. rewrite Hmap.
      destruct (decide (u = url)) as [->|Hne].
      * rewrite lookup_insert_eq. intros [= <-]. unfold pageArtifacts. simpl.
        split; [|split].
        -- by apply (Hall Screenshot).
        -- by apply (Hall WriteHtml).
        -- by apply (Hall WriteText).
      * rewrite lookup_insert_ne by done.
        intros Hl. eapply artifactsOnDisk_mono; [exact Hgrow|]. by eapply Hidx.
    + intros url p s file Hin Hs Hfile. unfold updateIndexFiles in *. simpl in *.
      fold st1 in Hin |- *. fold st2 in Hin |- *. rewrite Habn in Hin.
      apply Hgrow. apply (Hab url p s); [rewrite Ha; by right|done|done].
  - destruct (abandoned st) as [|a rest] eqn:Ha; [done|]. split; [done|].
    intros url p s file Hin Hs Hfile. simpl in *.
    apply (Hab url p s); [rewrite Ha; by right|done|done].
Qed.

Lemma processUrl_consistent hashUrl (w : World) (url : string) (st : State) :
  (∀ u, includes (hashUrl u) "/" = false) →
  indexOnDisk st → abandonedOnDisk hashUrl st →
  indexOnDisk (processUrl hashUrl w url st)
  ∧ abandonedOnDisk hashUrl (processUrl hashUrl w url st).
Proof.
  intros Hhash Hidx Hab.
  pose proof (processUrl_files hashUrl w url st) as Hgrow.
  split.
  - intros u entry.
    destruct (processUrl_index hashUrl w url st Hhash) as [->|(new & -> & Hnew)].
    + intros Hl. eapply artifactsOnDisk_mono; [exact Hgrow|]. by eapply Hidx.
    + destruct (decide (url = u)) as [->|Hne].
      * rewrite lookup_insert_eq. by intros [= <-].
      * rewrite lookup_insert_ne by done.
        intros Hl. eapply artifactsOnDisk_mono; [exact Hgrow|]. by eapply Hidx.
  - intros u p s file.
    destruct (processUrl_abandoned hashUrl w url st) as [->|(pending & -> & Hnew)].
    + intros Hin Hs Hfile. apply Hgrow. by apply (Hab u p s).
    + rewrite elem_of_app, list_elem_of_singleton. intros [Hin|[= -> ->]] Hs Hfile.
      * apply Hgrow. by apply (Hab u p s).
      * by apply (Hnew s).
Qed.

Lemma backgrounds_consistent hashUrl (bs : list Background) : ∀ st,
  indexOnDisk st → abandonedOnDisk hashUrl st →
  indexOnDisk (foldl (λ acc b, background hashUrl b acc) st bs)
  ∧ abandonedOnDisk hashUrl (foldl (λ acc b, background hashUrl b acc) st bs).
Proof.
  induction bs as [|b bs IH]; intros st Hidx Hab; simpl; [done|].
  destruct (background_consistent hashUrl b st Hidx Hab) as [H1 H2]. by apply IH.
Qed.

Lemma processLoop_consistent hashUrl env (work : list string) : ∀ n st,
  (∀ u, includes (hashUrl u) "/" = false) →
  indexOnDisk st → abandonedOnDisk hashUrl st →
  indexOnDisk (snd (processLoop hashUrl env n work st))
  ∧ abandonedOnDisk hashUrl (snd (processLoop hashUrl env n work st)).
Proof.
  induction work as [|u work IH]; intros n st Hhash Hidx Hab; simpl; [done|].
  destruct (env n) as [bs w].
  destruct (backgrounds_consistent hashUrl bs st Hidx Hab) as [H1 H2].
  destruct (processUrl_consistent hashUrl w u _ Hhash H1 H2) as [G1 G2].
  by apply IH.
Qed.

(** X5. Every index entry names files that exist. If that holds when an
    iteration starts (and every capture that lost its race has written the
    files of the steps it had finished), it holds when the iteration ends,
    after whatever settles in the background, and at the end of the loop:
    an entry is stored only after its files were written, and no file is
    ever removed. The fingerprint is taken to be free of [/], as a hex
    digest is. *)
Theorem index_entries_have_files hashUrl env (w : World) (b : Background)
    (url : string) (work : list string) (n : nat) (st : State) :
  (∀ u, includes (hashUrl u) "/" = false) →
  indexOnDisk st → abandonedOnDisk hashUrl st →
  indexOnDisk (processUrl hashUrl w url st)
  ∧ indexOnDisk (background hashUrl b st)
  ∧ indexOnDisk (snd (processLoop hashUrl env n work st))
  ∧ files st ⊆ files (processUrl hashUrl w url st).
Proof.
  intros Hhash Hidx Hab. split; [|split; [|split]].
  - by apply processUrl_consistent.
  - by apply background_consistent.
  - by apply processLoop_consistent.
  - apply processUrl_files.
Qed.

Lemma closeContext_fields (st : State) :
  urlMap (closeContext st) = urlMap st ∧ files (closeContext st) = files st
  ∧ failedUrls (closeContext st) = failedUrls st
  ∧ indexFile (closeContext st) = indexFile st
  ∧ failedFile (closeContext st) = failedFile st.
Proof. done. Qed.

Lemma documentIndex_on_disk (url : string) (entry : ArtifactSet) :
  documentIndex !! url = Some entry → artifactsOnDisk documentFiles entry.
Proof.
  unfold documentIndex. intros [<- <-]%lookup_singleton_Some.
  split; decide_now.
Qed.

Lemma index_entries_have_files_witness :
  indexOnDisk (processUrl constantHash quietWorld samplePageUrl resumedState)
  ∧ indexOnDisk (snd (processLoop constantHash quietEnv 0 [samplePageUrl] resumedState)).
Proof.
  destruct (index_entries_have_files constantHash quietEnv quietWorld CaptureDies
              samplePageUrl [samplePageUrl] 0 resumedState) as (H1 & _ & H3 & _).
  - intros u. reflexivity.
  - exact documentIndex_on_disk.
  - intros u p s file Hin. by apply elem_of_nil in Hin.
  - split; [exact H1 | exact H3].
Defined.

(** X6. A run that loads an index whose entries all name existing files
    ends with an in-memory index whose entries all name existing files, the
    entries it added included, whatever the start-up steps and the outside
    world answer. *)
Theorem run_keeps_index_on_disk hashUrl (setup : Setup) env
    (index : gmap string ArtifactSet) failed (artifacts : gset string) :
  (∀ u, includes (hashUrl u) "/" = false) →
  (∀ url entry, index !! url = Some entry → artifactsOnDisk artifacts entry) →
  indexOnDisk (final (takeScreenshots hashUrl setup env
                        (boot (Stored index) failed artifacts))).
Proof.
  intros Hhash Hidx. unfold takeScreenshots. simpl.
  set (st0 := adopt _ _).
  assert (H0 : indexOnDisk st0) by exact Hidx.
  assert (A0 : abandonedOnDisk hashUrl st0).
  { intros u p s file Hin. by apply elem_of_nil in Hin. }
  destruct (urlsJson setup) as [urls|m]; [|exact H0].
  destruct (directories setup) as [[]|m]; [|exact H0].
  destruct (launch setup) as [[]|m]; [|exact H0].
  destruct (processLoop_consistent hashUrl env (urlsToProcess urls (urlMap st0)) 0 st0
              Hhash H0 A0) as [H1 _].
  destruct (processLoop hashUrl env 0 _ st0) as [k st1]. exact H1.
Qed.

Lemma run_keeps_index_on_disk_witness :
  indexOnDisk (final (takeScreenshots constantHash (readySetup [samplePageUrl]) quietEnv
                        (boot (Stored documentIndex) Missing documentFiles))).
Proof.
  apply run_keeps_index_on_disk.
  - intros u. reflexivity.
  - exact documentIndex_on_disk.
Defined.

(** ** The index only grows *)

Lemma processUrl_urlMap hashUrl (w : World) (url : string) (st : State) :
  urlMap (processUrl hashUrl w url st) = urlMap st
  ∨ ∃ entry, urlMap (processUrl hashUrl w url st) = <[url := entry]> (urlMap st).
Proof.
  unfold_async. walk.
  all: unfold updateIndexFiles, recordFailure, updateIndexFilesDetached; simpl.
  all: autorewrite with fields.
  all: first [left; reflexivity | right; eexists; reflexivity].
Qed.

Lemma processUrl_within hashUrl (w : World) (url : string) (st : State) base keys :
  base !! url = None → url ∈ keys →
  indexWithin base keys st → indexWithin base keys (processUrl hashUrl w url st).
Proof.
  intros Hfresh Hkey (Hbase & Hdom & Hab). split; [|split].
  - destruct (processUrl_urlMap hashUrl w url st) as [->|[entry ->]]; [done|].
    by apply insert_subseteq_r.
  - destruct (processUrl_urlMap hashUrl w url st) as [->|[entry ->]]; [done|].
    rewrite dom_insert_L.
    intros x [->%elem_of_singleton|Hx]%elem_of_union; [done|by apply Hdom].
  - intros u pending.
    destruct (processUrl_abandoned hashUrl w url st) as [->|(p & -> & _)].
    + apply Hab.
    + rewrite elem_of_app, list_elem_of_singleton. intros [Hin|[= -> ->]].
      * by apply (Hab u pending).
      * by split.
Qed.

Lemma background_within hashUrl (b : Background) (st : State) base keys :
  indexWithin base keys st → indexWithin base keys (background hashUrl b st).
Proof.
  intros Hin. destruct b as [r|r|]; simpl.
  - destruct (pendingFlushes st); exact Hin.
  - destruct (abandoned st) as [|[u pending] rest] eqn:Ha; [exact Hin|].
    destruct Hin as (Hbase & Hdom & Hab).
    destruct (Hab u pending) as [Hfresh Hkey]; [rewrite Ha; left|].
    unfold indexWithin, updateIndexFiles. simpl. autorewrite with fields.
    destruct (stepDone_fields (hashUrl u) pending (setAbandoned rest st))
      as (-> & _ & _ & _ & _ & -> & _). simpl.
    split; [by apply insert_subseteq_r|]. split.
    { rewrite dom_insert_L.
      intros x [->%elem_of_singleton|Hx]%elem_of_union; [done|by apply Hdom]. }
    intros v p Hv. apply (Hab v p). rewrite Ha. by right.
  - destruct (abandoned st) as [|a rest] eqn:Ha; [exact Hin|].
    destruct Hin as (Hbase & Hdom & Hab).
    split; [done|]. split; [done|]. simpl. intros v p Hv.
    apply (Hab v p). rewrite Ha. by right.
Qed.

Lemma processLoop_within hashUrl env (work : list string) base keys : ∀ n st,
  (∀ u, u ∈ work → base !! u = None ∧ u ∈ keys) →
  indexWithin base keys st →
  indexWithin base keys (snd (processLoop hashUrl env n work st)).
Proof.
  induction work as [|u work IH]; intros n st Hwork Hin; simpl; [done|].
  destruct (env n) as [bs w]. apply IH.
  - intros v Hv. apply Hwork. by right.
  - destruct (Hwork u ltac:(left)) as [Hfresh Hkey].
    apply processUrl_within; [done|done|].
    clear IH Hwork. revert st Hin.
    induction bs as [|b bs IHb]; intros st Hin; simpl; [done|].
    by apply IHb, background_within.
Qed.

(** X7. A run never removes or rewrites an entry of the index it loaded:
    every loaded entry is in the final in-memory index with the same
    value. Every key of the final index was loaded or is a URL of the work
    list. *)
Theorem run_keeps_loaded_entries hashUrl (setup : Setup) env
    (index : gmap string ArtifactSet) failed (artifacts : gset string) :
  let s := takeScreenshots hashUrl setup env (boot (Stored index) failed artifacts) in
  (∀ url entry, index !! url = Some entry → urlMap (final s) !! url = Some entry)
  ∧ (∀ url, url ∈ dom (urlMap (final s)) → url ∈ dom index ∨ url ∈ workList s).
Proof.
  cbv zeta. unfold takeScreenshots. simpl. set (st0 := adopt _ _).
  assert (Hsame : ∀ url entry, index !! url = Some entry →
                               urlMap st0 !! url = Some entry) by done.
  assert (Hkeys : ∀ (work : list string) url,
            url ∈ dom (urlMap st0) → url ∈ dom index ∨ url ∈ work) by (by left).
  destruct (urlsJson setup) as [urls|m]; [|split; [exact Hsame|apply Hkeys]].
  destruct (directories setup) as [[]|m]; [|split; [exact Hsame|apply Hkeys]].
  destruct (launch setup) as [[]|m]; [|split; [exact Hsame|apply Hkeys]].
  set (work := urlsToProcess urls index).
  assert (Hwork : ∀ u, u ∈ work →
            index !! u = None ∧ u ∈ dom index ∪ list_to_set work).
  { intros u Hu. split.
    - apply urlsToProcess_elem in Hu as [_ Hu]. by apply not_elem_of_dom in Hu.
    - apply elem_of_union_r. by apply elem_of_list_to_set. }
  assert (H0 : indexWithin index (dom index ∪ list_to_set work) st0).
  { split; [done|]. split; [apply union_subseteq_l|].
    intros u p Hin. by apply elem_of_nil in Hin. }
  pose proof (processLoop_within hashUrl env work index _ 0 st0 Hwork H0) as (H1 & H2 & _).
  destruct (processLoop hashUrl env 0 work st0) as [k st1].
  change (snd (k, st1)) with st1 in H1, H2. simpl.
  split.
  - intros url entry Hl. exact (lookup_weaken _ _ _ _ Hl H1).
  - intros url Hu. apply H2 in Hu. apply elem_of_union in Hu as [Hu|Hu]; [by left|].
    right. by apply elem_of_list_to_set in Hu.
Qed.

Lemma run_keeps_loaded_entries_witness :
  urlMap (final (takeScreenshots constantHash (readySetup [samplePageUrl]) quietEnv
                   (boot (Stored documentIndex) Missing documentFiles))) !! samplePdfUrl
  = Some (DocumentArtifacts "d41d8cd98f00b204e9800998ecf8427e.pdf"
                            "d41d8cd98f00b204e9800998ecf8427e.txt").
Proof.
  apply (proj1 (run_keeps_loaded_entries constantHash (readySetup [samplePageUrl])
                  quietEnv documentIndex Missing documentFiles)).
  reflexivity.
Defined.

(** ** Every URL gets an outcome *)








(** ** Persisting and loading *)

(** X9. A URL that has succeeded is not taken up again after a restart:
    when an iteration ends in success and its two writes succeed, a process
    started from the disk as it then is loads the index that was in memory,
    and its work list does not contain the URL, whatever the input list. *)
Theorem finished_url_not_retried hashUrl (w : World) (u : string) (st : State)
    nextHash (urls : list string) dirs browser env :
  let st' := processUrl hashUrl w u st in
  let next := takeScreenshots nextHash (mkSetup (Resolved urls) dirs browser) env
                (boot (indexFile st') (failedFile st') (files st')) in
  failedUrls st' = failedUrls st →
  flush w = (Written, Written) →
  loadExistingData (boot (indexFile st') (failedFile st') (files st'))
    = (urlMap st', failedUrls st')
  ∧ u ∉ workList next.
Proof.
  intros st' next Hok Hflush.
  destruct (processUrl_shape hashUrl w u st)
    as [(_ & _ & Hi & Hf & Hin)|(msg & st2 & Hst & Hf)].
  - fold st' in Hi, Hf, Hin. rewrite Hflush in Hi, Hf. simpl in Hi, Hf.
    assert (Hload : loadExistingData (boot (indexFile st') (failedFile st') (files st'))
                    = (urlMap st', failedUrls st')).
    { unfold loadExistingData. simpl. by rewrite Hi, Hf. }
    split; [exact Hload|].
    assert (Hwork : workList next = urlsToProcess urls (urlMap st')).
    { subst next. unfold takeScreenshots. rewrite Hload. simpl.
      destruct dirs as [[]|?]; simpl; [|done].
      destruct browser as [[]|?]; simpl; [|done].
      by destruct (processLoop _ _ _ _ _). }
    rewrite Hwork. intros [_ Hnot]%urlsToProcess_elem.
    apply Hnot. by apply elem_of_dom.
  - exfalso. fold st' in Hst. rewrite Hst in Hok.
    destruct (recordFailure_fields u msg (clock w) st2) as (_ & Hl & _).
    rewrite Hl, Hf in Hok.
    apply (f_equal List.length) in Hok. rewrite length_app in Hok. simpl in Hok. lia.
Qed.

Lemma finished_url_not_retried_witness :
  let st' := processUrl sampleHash quietWorld samplePageUrl capturedDisk in
  samplePageUrl ∉ workList
    (takeScreenshots sampleHash (readySetup [samplePageUrl; samplePdfUrl]) quietEnv
       (boot (indexFile st') (failedFile st') (files st'))).
Proof.
  exact (proj2 (finished_url_not_retried sampleHash quietWorld samplePageUrl capturedDisk
                  sampleHash [samplePageUrl; samplePdfUrl] (Resolved tt) (Resolved tt)
                  quietEnv eq_refl eq_refl)).
Defined.

(** ** Letter case of the content type *)

Lemma lowerChar_idem (c : ascii) : lowerChar (lowerChar c) = lowerChar c.
Proof. by destruct c as [[] [] [] [] [] [] [] []]. Qed.

Lemma toLowerCase_idem (s : string) : toLowerCase (toLowerCase s) = toLowerCase s.
Proof. induction s as [|c s IH]; [done|]. simpl. by rewrite lowerChar_idem, IH. Qed.

Lemma toLowerCase_app (a b : string) :
  toLowerCase (a +:+ b) = toLowerCase a +:+ toLowerCase b.
Proof. induction a as [|c a IH]; [done|]. simpl. by rewrite IH. Qed.

Lemma toLowerCase_split (s x y : string) :
  toLowerCase s = x +:+ y →
  ∃ a b, s = a +:+ b ∧ toLowerCase a = x ∧ toLowerCase b = y.
Proof.
  revert s. induction x as [|c x IH]; intros s; simpl.
  - intros H. by exists "", s.
  - destruct s as [|d s]; [done|]. simpl. intros [= Hc Hs].
    destruct (IH s Hs) as (a & b & -> & Ha & Hb).
    exists (String d a), b. simpl. by rewrite Hc, Ha.
Qed.

(** X10. Matching on the content type ignores the case of ASCII letters:
    the content type [checkContentType] returns for a header contains a
    lower-case keyword exactly when the header contains it in some mix of
    upper and lower case; and what it returns is already lower case. *)
Theorem content_type_case_insensitive (header keyword : string) :
  (includes (contentTypeOf (Resolved (Some header))) (toLowerCase keyword) = true
   ↔ ∃ before marker after,
       header = before +:+ marker +:+ after
       ∧ toLowerCase marker = toLowerCase keyword)
  ∧ toLowerCase (contentTypeOf (Resolved (Some header)))
    = contentTypeOf (Resolved (Some header)).
Proof.
  split; [|apply toLowerCase_idem]. simpl. rewrite includes_split. split.
  - intros (x & y & H).
    apply toLowerCase_split in H as (before & rest & -> & Hx & H).
    apply toLowerCase_split in H as (marker & after & -> & Hm & Hy).
    by exists before, marker, after.
  - intros (before & marker & after & -> & Hm).
    exists (toLowerCase before), (toLowerCase after).
    by rewrite !toLowerCase_app, Hm.
Qed.

(** ** The loop takes the work list in order *)

Lemma step_orderKept hashUrl (work : list string) (p : Process) (e : Event) :
  orderKept work p → orderKept work (step hashUrl p e).
Proof.
  destruct p as [st rest cur n flag stage over code].
  intros (taken & Hw & Hn & Hlast). simpl in *. unfold step. simpl.
  assert (Hsame : ∀ st' stage' code',
            orderKept work (mkProcess st' rest cur n flag stage' over code')).
  { intros. by exists taken. }
  assert (Hflagged : ∀ st' stage' code',
            orderKept work (mkProcess st' rest cur n true stage' over code')).
  { intros. by exists taken. }
  assert (Hidle : ∀ st' over', orderKept work (mkProcess st' rest None n flag stage over' code)).
  { intros. exists taken. by repeat split. }
  destruct code; [apply Hsame|].
  destruct e as [|w|b| |r|]; simpl.
  - destruct over; [apply Hsame|].
    destruct cur as [v|]; [apply Hsame|].
    destruct rest as [|v rest]; [apply Hidle|].
    destruct flag; [apply Hidle|].
    exists (taken ++ [v]). simpl. split; [by rewrite <- app_assoc|].
    split; [rewrite length_app; simpl; lia|].
    intros u [= <-]. apply last_snoc.
  - destruct cur as [v|]; [apply Hidle|apply Hsame].
  - apply Hsame.
  - unfold handleShutdown. simpl. destruct flag; [apply Hsame|apply Hflagged].
  - destruct stage; apply Hsame.
  - destruct stage; apply Hsame.
Qed.

(** X11. Whatever happens, signals included, the loop takes the URLs of
    the work list in order and without gaps: at any moment the URLs still
    to come are a suffix of the work list, the counter is the number of
    URLs taken before it, and the URL in flight is the last one taken. *)
Theorem loop_takes_work_in_order hashUrl (work : list string) (st : State)
    (events : list Event) :
  orderKept work (run hashUrl (launchProcess work st) events).
Proof.
  assert (H0 : orderKept work (launchProcess work st)) by (by exists []).
  revert H0. generalize (launchProcess work st).
  induction events as [|e events IH]; intros p Hp; [done|].
  simpl. by apply IH, step_orderKept.
Qed.

(** ** The process exits only through the handler *)

Lemma processUrl_calls_take hashUrl (w : World) (u : string) (st : State) :
  take (List.length (calls st)) (calls (processUrl hashUrl w u st)) = calls st.
Proof.
  unfold_async. walk.
  all: unfold updateIndexFiles, recordFailure, updateIndexFilesDetached; simpl.
  all: autorewrite with fields; simpl.
  all: rewrite <- ?app_assoc; apply take_app_length.
Qed.

Lemma processUrl_calls hashUrl (w : World) (u : string) (st : State) :
  ∃ new, calls (processUrl hashUrl w u st) = calls st ++ new.
Proof.
  exists (drop (List.length (calls st)) (calls (processUrl hashUrl w u st))).
  pose proof (take_drop (List.length (calls st)) (calls (processUrl hashUrl w u st))) as H.
  by rewrite processUrl_calls_take in H.
Qed.

Lemma background_calls hashUrl (b : Background) (st : State) :
  ∃ new, calls (background hashUrl b st) = calls st ++ new.
Proof.
  destruct b as [r|r|]; simpl.
  - destruct (pendingFlushes st); exists []; by rewrite app_nil_r.
  - destruct (abandoned st) as [|[v pending] rest]; [exists []; by rewrite app_nil_r|].
    unfold updateIndexFiles. simpl. autorewrite with fields.
    destruct (stepDone_fields (hashUrl v) pending (setAbandoned rest st))
      as (_ & _ & _ & _ & _ & _ & _ & ->).
    simpl. rewrite <- ?app_assoc. by eexists.
  - destruct (abandoned st); exists []; by rewrite app_nil_r.
Qed.

Lemma step_handlerKept hashUrl (p : Process) (e : Event) :
  handlerKept p → handlerKept (step hashUrl p e).
Proof.
  destruct p as [st rest cur n flag stage over code].
  unfold handlerKept, step, handleShutdown, leaveLoop, withMem. simpl.
  intros Hk. destruct code as [c|]; [exact Hk|].
  destruct stage, e; simpl in *; walk; simpl; try (intuition congruence).
  all: split; [intuition congruence|]; split; [intuition congruence|].
  all: try (apply elem_of_app; right; by left).
  - destruct (processUrl_calls hashUrl w s st) as [new ->].
    apply elem_of_app. left. apply Hk.
  - destruct (background_calls hashUrl b st) as [new ->].
    apply elem_of_app. left. apply Hk.
  - exists (calls st). split; [done|apply Hk].
Qed.


(** X12. A process that has exited can only have done so through the
    shutdown handler: its exit code is 0, the flag is set, [process.exit(0)]
    is its last call and the browser context was closed before it. While
    the flag is not set the process has not exited. *)
Theorem exit_only_through_handler hashUrl (work : list string) (st : State)
    (events : list Event) :
  let p := run hashUrl (launchProcess work st) events in
  (isShuttingDown p = false → exitCode p = None)
  ∧ (exitCode p ≠ None →
       exitCode p = Some 0%Z ∧ isShuttingDown p = true
       ∧ ∃ before, calls (mem p) = before ++ [ProcessExit 0] ∧ ContextClose ∈ before).
Proof.
  cbv zeta.
  assert (Hk : handlerKept (run hashUrl (launchProcess work st) events)).
  { assert (H0 : handlerKept (launchProcess work st)) by done.
    revert H0. generalize (launchProcess work st).
    induction events as [|e events IH]; intros p Hp; [done|].
    simpl. by apply IH, step_handlerKept. }
  unfold handlerKept in Hk.
  destruct (handler (run hashUrl (launchProcess work st) events)).
  - destruct Hk as [Hf He]. split; [done|]. by rewrite He.
  - destruct Hk as [Hf He]. split; [done|]. by rewrite He.
  - destruct Hk as (Hf & He & _). split; [done|]. by rewrite He.
  - destruct Hk as (Hf & He & Hc). split; [by rewrite Hf|]. done.
Qed.

Lemma exit_only_through_handler_witness :
  let p := run sampleHash (launchProcess [samplePdfUrl] (boot Missing Missing ∅))
             [LoopHead; Signal; HandlerFlushed (Written, Written); HandlerClosed] in
  exitCode p = Some 0%Z ∧ isShuttingDown p = true.
Proof.
  destruct (exit_only_through_handler sampleHash [samplePdfUrl] (boot Missing Missing ∅)
              [LoopHead; Signal; HandlerFlushed (Written, Written); HandlerClosed])
    as [_ H].
  destruct H as (H1 & H2 & _); [discriminate|].
  split; [exact H1|exact H2].
Defined.

(** ** Start-up *)


(** ** The work list *)




(** ** The document worker *)

(** X15. When [processDocument] returns an entry, everything it stands for
    has happened: the worker's own probe named a PDF or a Word document,
    so the extension is not [.bin]; the document and the extracted text
    were both written, in that order, with the extractor of the type (PDF
    first); the entry names the saved document and the text file; the index
    and the ledger in memory were not touched. *)
Theorem document_success_is_complete (w : World) (url fileHash docDir textDir : string)
    (st : State) (entry : ArtifactSet) :
  let contentType := contentTypeOf (reprobe w) in
  let docPath := path_join docDir (fileHash +:+ documentExtension contentType) in
  let textPath := path_join textDir (fileHash +:+ ".txt") in
  let st' := fst (processDocument w url fileHash docDir textDir st) in
  snd (processDocument w url fileHash docDir textDir st) = Resolved entry →
  entry = DocumentArtifacts (path_basename docPath) (fileHash +:+ ".txt")
  ∧ (classify contentType = PdfDocument ∨ classify contentType = WordDocument)
  ∧ documentExtension contentType ≠ ".bin"
  ∧ docPath ∈ files st' ∧ textPath ∈ files st'
  ∧ calls st' = calls st ++
      [FetchHead url; FetchBody url; WriteFile docPath;
       if includes contentType "pdf" then PdfParse else MammothExtract;
       WriteFile textPath]
  ∧ urlMap st' = urlMap st ∧ failedUrls st' = failedUrls st.
Proof.
  cbv zeta. unfold_async. unfold classify, documentExtension. walk.
  all: intros H; try discriminate H; injection H as <-.
  all: settle_facts; simpl; rewrite <- ?app_assoc; simpl.
  all: repeat split; try done; try set_solver; auto.
Qed.

Lemma document_success_is_complete_witness :
  let st' := fst (processDocument pdfWorld samplePdfUrl "fp25" docDir textDir
                    (boot Missing Missing ∅)) in
  "out/doc/fp25.pdf" ∈ files st' ∧ "out/text/fp25.txt" ∈ files st'.
Proof.
  destruct (document_success_is_complete pdfWorld samplePdfUrl "fp25" docDir textDir
              (boot Missing Missing ∅) (DocumentArtifacts "fp25.pdf" "fp25.txt") eq_refl)
    as (_ & _ & _ & Hd & Ht & _).
  split; [exact Hd|exact Ht].
Defined.

(** X16. A document that fails leaves no index entry, and what it leaves
    on disk depends on where it failed: when the download fails no file is
    written at all; when the download is saved but the text extraction
    fails, the saved document stays on disk, no text file is written, and
    the extractor's error is recorded. *)
Theorem document_failure_leaves_no_entry hashUrl (w : World) (url : string) (st : State) :
  let contentType := contentTypeOf (reprobe w) in
  let docPath := path_join docDir (hashUrl url +:+ documentExtension contentType) in
  let st' := processUrl hashUrl w url st in
  (includes (contentTypeOf (probe w)) "pdf"
   || includes (contentTypeOf (probe w)) "word") = true →
  (∀ message, body w = Rejected message →
     urlMap st' = urlMap st ∧ files st' = files st
     ∧ calls st' = calls st ++ [FetchHead url; FetchHead url; FetchBody url;
                                WriteFile indexPath; WriteFile failedPath])
  ∧ (∀ buffer message,
       body w = Resolved buffer → docWrite w = Written →
       (includes contentType "pdf" || includes contentType "word") = true →
       extraction w = Rejected message →
       urlMap st' = urlMap st
       ∧ files st' = {[docPath]} ∪ files st
       ∧ failedUrls st' = failedUrls st ++
           [mkFailure url (reportedMessage message) (clock w)]
       ∧ calls st' = calls st ++
           [FetchHead url; FetchHead url; FetchBody url; WriteFile docPath;
            if includes contentType "pdf" then PdfParse else MammothExtract;
            WriteFile indexPath; WriteFile failedPath]).
Proof.
  cbv zeta. intros Hdoc. split.
  - intros message Hbody. unfold_async. simpl. rewrite Hdoc, Hbody. simpl.
    rewrite <- !app_assoc. done.
  - intros buffer message Hbody Hwrite Hkind Hext.
    unfold_async. simpl. rewrite Hdoc, Hbody, Hwrite. simpl.
    destruct (includes (contentTypeOf (reprobe w)) "pdf") eqn:Hpdf; simpl in *.
    + rewrite Hext. simpl. rewrite <- !app_assoc. done.
    + rewrite Hkind, Hext. simpl. rewrite <- !app_assoc. done.
Qed.

Lemma document_failure_leaves_no_entry_witness :
  let st' := processUrl sampleHash brokenPdfWorld samplePdfUrl (boot Missing Missing ∅) in
  urlMap st' = ∅ ∧ files st' = {[ "out/doc/fp25.pdf" ]} ∪ ∅.
Proof.
  destruct (document_failure_leaves_no_entry sampleHash brokenPdfWorld samplePdfUrl
              (boot Missing Missing ∅) eq_refl) as [_ H].
  destruct (H "not a pdf" "Invalid PDF structure" eq_refl eq_refl eq_refl eq_refl)
    as (Hm & Hf & _).
  split; [exact Hm|exact Hf].
Defined.

(** ** The page worker *)

Lemma missing_file_not_all (fileHash : string) (st : State) :
  screenshotPath fileHash ∉ files st ∨ htmlPath fileHash ∉ files st
  ∨ textPath fileHash ∉ files st →
  forallb (λ p, fileExists p st)
          [screenshotPath fileHash; htmlPath fileHash; textPath fileHash] = false.
Proof.
  unfold fileExists. simpl. intros [H|[H|H]];
    rewrite (bool_decide_eq_false_2 _ H); by rewrite ?andb_false_r.
Qed.

Lemma processUrl_opens_page hashUrl (w : World) (url : string) (st : State) :
  classify (contentTypeOf (probe w)) = WebPage →
  forallb (λ p, fileExists p st)
          [screenshotPath (hashUrl url); htmlPath (hashUrl url); textPath (hashUrl url)]
    = false →
  (calls st ++ [FetchHead url; NewPage]) `prefix_of` calls (processUrl hashUrl w url st).
Proof.
  intros Hc Hfiles.
  pose proof (classify_cases (contentTypeOf (probe w))) as Hi.
  rewrite Hc in Hi. destruct Hi as (Hpdf & Hword & Hhtml).
  unfold_async. simpl. rewrite Hpdf, Hword, Hhtml. simpl.
  unfold fileExists in *. simpl in *. rewrite Hfiles. walk.
  all: simpl; autorewrite with fields; simpl.
  all: rewrite <- ?app_assoc; simpl.
  all: apply prefix_app, prefix_cons, prefix_cons, prefix_nil.
Qed.

(** X17. The short cut needs all three files: for a web page of which the
    screenshot, the HTML file or the text file is missing, the iteration
    opens a page right after the probe, whatever else is on disk. *)
Theorem partial_artifacts_not_skipped hashUrl (w : World) (url : string) (st : State) :
  let fileHash := hashUrl url in
  classify (contentTypeOf (probe w)) = WebPage →
  screenshotPath fileHash ∉ files st ∨ htmlPath fileHash ∉ files st
  ∨ textPath fileHash ∉ files st →
  ∃ rest, calls (processUrl hashUrl w url st)
          = calls st ++ [FetchHead url; NewPage] ++ rest.
Proof.
  intros fileHash Hc Hmissing.
  destruct (processUrl_opens_page hashUrl w url st Hc
              (missing_file_not_all fileHash st Hmissing)) as [rest Hrest].
  exists rest. by rewrite Hrest, <- app_assoc.
Qed.

Lemma partial_artifacts_not_skipped_witness :
  ∃ rest, calls (processUrl sampleHash quietWorld samplePageUrl partialDisk)
          = [FetchHead samplePageUrl; NewPage] ++ rest.
Proof.
  apply (partial_artifacts_not_skipped sampleHash quietWorld samplePageUrl partialDisk).
  - reflexivity.
  - right. left. decide_now.
Defined.

(** X18. A capture that runs to its end before the timer does all of it in
    order: the page is opened, navigated, captured, the three files are
    written, then the entry is stored and the flush awaited, and only then
    is the page closed, leaving as many pages open as before and no
    failure record. *)
Theorem capture_success_is_complete hashUrl (w : World) (url : string) (st : State) :
  let fileHash := hashUrl url in
  let st' := processUrl hashUrl w url st in
  classify (contentTypeOf (probe w)) = WebPage →
  forallb (λ p, fileExists p st)
          [screenshotPath fileHash; htmlPath fileHash; textPath fileHash] = false →
  newPage w = Resolved tt →
  race w = Captured →
  pageClose w = Resolved tt →
  urlMap st' = <[url := PageArtifacts (fileHash +:+ ".png") (fileHash +:+ ".html")
                                       (fileHash +:+ ".txt")]> (urlMap st)
  ∧ failedUrls st' = failedUrls st
  ∧ files st' = {[textPath fileHash]} ∪ ({[htmlPath fileHash]}
                  ∪ ({[screenshotPath fileHash]} ∪ files st))
  ∧ openPages st' = openPages st
  ∧ indexFile st' = writeJson (fst (flush w)) (urlMap st') (indexFile st)
  ∧ calls st' = calls st ++
      [FetchHead url; NewPage; PageGoto url; PageScreenshot (screenshotPath fileHash);
       PageContent; WriteFile (htmlPath fileHash); PageEvaluate;
       WriteFile (textPath fileHash); WriteFile indexPath; WriteFile failedPath;
       PageClose].
Proof.
  intros fileHash st' Hc Hfiles Hnew Hrace Hclose. subst st'.
  pose proof (classify_cases (contentTypeOf (probe w))) as Hi.
  rewrite Hc in Hi. destruct Hi as (Hpdf & Hword & Hhtml).
  unfold_async. simpl. rewrite Hpdf, Hword, Hhtml. simpl.
  fold fileHash. unfold fileExists in *. simpl in *.
  rewrite Hfiles, Hnew, Hrace. simpl. rewrite Hclose. simpl.
  rewrite <- !app_assoc. done.
Qed.

Lemma capture_success_is_complete_witness :
  let st' := processUrl sampleHash quietWorld samplePageUrl partialDisk in
  openPages st' = 0 ∧ failedUrls st' = [].
Proof.
  destruct (capture_success_is_complete sampleHash quietWorld samplePageUrl partialDisk)
    as (_ & Hf & _ & Ho & _).
  - reflexivity.
  - vm_compute. reflexivity.
  - reflexivity.
  - reflexivity.
  - reflexivity.
  - split; [exact Ho|exact Hf].
Defined.

(** X19. A URL can end up in the index and in the ledger at once: when the
    capture is complete and flushed but closing the page then fails, or
    when the timer fires while the capture's own flush is under way, the
    entry stays in the index, a failure is recorded for the same URL, and
    the page stays open. *)
Theorem captured_yet_recorded_failed hashUrl (w : World) (url : string) (st : State) :
  let fileHash := hashUrl url in
  let st' := processUrl hashUrl w url st in
  classify (contentTypeOf (probe w)) = WebPage →
  forallb (λ p, fileExists p st)
          [screenshotPath fileHash; htmlPath fileHash; textPath fileHash] = false →
  newPage w = Resolved tt →
  (∀ message, race w = Captured → pageClose w = Rejected message →
     urlMap st' !! url = Some (pageArtifacts fileHash)
     ∧ failedUrls st' = failedUrls st ++
         [mkFailure url (reportedMessage message) (clock w)]
     ∧ openPages st' = S (openPages st))
  ∧ (race w = TimerDuringFlush →
     urlMap st' !! url = Some (pageArtifacts fileHash)
     ∧ failedUrls st' = failedUrls st ++ [mkFailure url "Processing timeout" (clock w)]
     ∧ openPages st' = S (openPages st)).
Proof.
  intros fileHash st' Hc Hfiles Hnew. subst st'.
  pose proof (classify_cases (contentTypeOf (probe w))) as Hi.
  rewrite Hc in Hi. destruct Hi as (Hpdf & Hword & Hhtml).
  unfold_async. simpl. rewrite Hpdf, Hword, Hhtml. simpl.
  fold fileHash. unfold fileExists in *. simpl in *.
  rewrite Hfiles, Hnew. simpl. split.
  - intros message Hrace Hclose. rewrite Hrace. simpl. rewrite Hclose. simpl.
    by rewrite lookup_insert_eq.
  - intros Hrace. rewrite Hrace. simpl. by rewrite lookup_insert_eq.
Qed.

Lemma captured_yet_recorded_failed_witness :
  let st' := processUrl sampleHash stuckTabWorld samplePageUrl partialDisk in
  urlMap st' !! samplePageUrl = Some (pageArtifacts "fp21")
  ∧ failedUrls st' = [mkFailure samplePageUrl "Target closed" "2024-01-01T00:00:00.000Z"].
Proof.
  destruct (captured_yet_recorded_failed sampleHash stuckTabWorld samplePageUrl partialDisk)
    as [H _].
  - reflexivity.
  - vm_compute. reflexivity.
  - reflexivity.
  - destruct (H "Target closed" eq_refl eq_refl) as (Hm & Hf & _).
    split; [exact Hm|exact Hf].
Defined.
